(** * Image to Prompt: the interaction controller and the generation client

    A shallow embedding of [src/App.tsx]: the React component [App] and, after
    the separator, the service module exporting [generatePromptFromImage].

    - JavaScript strings are sequences of UTF-16 code units: [list N].
    - The state variables of [useState] are fields of one record, [World];
      the setters are state transformers, and an event handler is the
      composition of the setters it calls, in source order.  A handler reads
      the state variables from the closure of the last render; every handler
      of [App] does its reads before its writes, and the memoised [imageUrl]
      changes only when React renders, so running the setters in place gives
      the state of the next render.
    - An [await] splits a function in two: the part before it runs inside the
      event that calls the function, the part after it runs inside the event
      that settles the awaited promise.  Suspended runs are kept in a finite
      map indexed by a task number.  How a promise owned by the environment
      settles (the SDK call, and [fileToBase64] of [utils/fileUtils]) is data
      of the event.
    - The browser is part of the state: the registry of object URLs, the
      clipboard, a clock in milliseconds and the timers armed with
      [setTimeout].
    - [console.error] and the markup returned by [App] are left out, except
      for the conditions under which the markup offers each handler. *)

From stdpp Require Import gmap strings list.
From Stdlib Require Import NArith Ascii.

Set Warnings "-clear-no-such-hyp".
Open Scope N_scope.

(** ** JavaScript strings *)

Module Js.

Abbreviation jsstring := (list N).

(** A source literal (all literals of the program are ASCII). *)
Definition lit (s : string) : jsstring :=
  map N_of_ascii (String.list_ascii_of_string s).

(** [ToBoolean] on a string: the empty string is the only falsy one. *)
Definition truthy (s : jsstring) : bool :=
  match s with
  | [] => false
  | _ :: _ => true
  end.

(** [String.prototype.startsWith(searchString)], position 0. *)
Fixpoint startsWith (s searchString : jsstring) : bool :=
  match searchString, s with
  | [], _ => true
  | _ :: _, [] => false
  | c :: searchString', d :: s' => (d =? c) && startsWith s' searchString'
  end.

(** ECMAScript [WhiteSpace] and [LineTerminator] code points, the characters
    [String.prototype.trim] strips. *)
Definition isWhiteSpace (c : N) : bool :=
  (c =? 9) || (c =? 10) || (c =? 11) || (c =? 12) || (c =? 13) || (c =? 32)
  || (c =? 160) || (c =? 5760) || ((8192 <=? c) && (c <=? 8202))
  || (c =? 8232) || (c =? 8233) || (c =? 8239) || (c =? 8287)
  || (c =? 12288) || (c =? 65279).

Fixpoint trimStart (s : jsstring) : jsstring :=
  match s with
  | [] => []
  | c :: s' => if isWhiteSpace c then trimStart s' else s
  end.

Definition trimEnd (s : jsstring) : jsstring := rev (trimStart (rev s)).

Definition trim (s : jsstring) : jsstring := trimEnd (trimStart s).

(** Values that can be thrown or used to reject a promise.  The program only
    ever asks [instanceof Error] and reads [.message]. *)
Inductive value :=
| ErrorObject (message : jsstring)
| NonError.

(** How an awaited promise settles; also the completion of a block that
    either returns or throws. *)
Inductive settled (A : Type) :=
| Fulfilled (a : A)
| Rejected (reason : value).
Arguments Fulfilled {A} a.
Arguments Rejected {A} reason.

Definition bind {A B} (m : settled A) (k : A → settled B) : settled B :=
  match m with
  | Fulfilled a => k a
  | Rejected reason => Rejected reason
  end.

(** [try { body } catch (e) { handler }] *)
Definition try_catch {A} (body : settled A) (handler : value → settled A)
  : settled A :=
  match body with
  | Fulfilled a => Fulfilled a
  | Rejected reason => handler reason
  end.

End Js.

Import Js.

#[global] Arguments Js.lit : simpl never.
#[global] Arguments Js.startsWith : simpl never.
#[global] Arguments Js.trim : simpl never.

Notation "'await' x ← m 'in' k" := (Js.bind m (λ x, k))
  (at level 10, x name, m at level 100, k at level 200, only parsing).

(** ** The generation client (service module of [src/App.tsx]) *)

Module Client.

Record InlineData := { data : jsstring; mimeType : jsstring }.

Inductive Part :=
| imagePart (inlineData : InlineData)
| textPart (text : jsstring).

Record GenerateContentParameters := {
  model : jsstring;
  parts : list Part
}.

(** What the SDK hands back: [response] may be nullish, and its [text]
    accessor may be [undefined]. *)
Record GenerateContentResponse := { text : option jsstring }.

Definition instruction : jsstring :=
  lit "You are an expert at writing detailed, descriptive, and artistic prompts for generative AI image models. 
    Describe the following image in a way that captures its essence, style, and key elements to be used as a prompt. 
    Focus on visual details: composition, colors, lighting, subject matter, and mood. Be concise but evocative.".

(** The single request [generatePromptFromImage] passes to
    [ai.models.generateContent]. *)
Definition request (imageData mimeType : jsstring) : GenerateContentParameters :=
  {| model := lit "gemini-2.5-flash";
     parts := [ imagePart {| data := imageData; mimeType := mimeType |};
                textPart instruction ] |}.

(** [response && response.text] *)
Definition response_text (response : option GenerateContentResponse)
  : option jsstring :=
  match response with
  | Some r =>
      match text r with
      | Some t => if truthy t then Some t else None
      | None => None
      end
  | None => None
  end.

Definition empty_response_message : jsstring :=
  lit "The API response was empty or invalid.".

Definition unknown_error_message : jsstring :=
  lit "An unknown error occurred while communicating with the Gemini API.".

(** The body of the [try] block, from the point where the SDK call settles. *)
Definition try_block (api : settled (option GenerateContentResponse))
  : settled jsstring :=
  await response ← api in
  match response_text response with
  | Some t => Fulfilled (trim t)
  | None => Rejected (ErrorObject empty_response_message)
  end.

(** The [catch (error)] block.  ([console.error] is not modelled.) *)
Definition catch_block (error : value) : settled jsstring :=
  match error with
  | ErrorObject message =>
      Rejected (ErrorObject (lit "Gemini API Error: " ++ message))
  | NonError => Rejected (ErrorObject unknown_error_message)
  end.

(** How the promise returned by [generatePromptFromImage] settles, given how
    the SDK call settled. *)
Definition generatePromptFromImage
    (api : settled (option GenerateContentResponse)) : settled jsstring :=
  try_catch (try_block api) catch_block.

End Client.

(** ** The interaction controller (component [App] of [src/App.tsx]) *)

Inductive AppStatus :=
| Idle | Uploading | Previewing | Generating | Success | Error.

#[global] Instance AppStatus_eq_dec : EqDecision AppStatus.
Proof. solve_decision. Defined.

(** A DOM [File].  [ref] is the identity of the object (what [Object.is]
    compares); [type] is the declared media type. *)
Record File := { ref : N; name : jsstring; type : jsstring }.

(** A suspended run of [handleGeneratePrompt], with the [imageFile] its
    closure captured. *)
Inductive Awaiting :=
| fileToBase64 (imageFile : File)
| generateContent (imageFile : File).

Record World := {
  (* useState *)
  imageFile : option File;
  generatedPrompt : jsstring;
  error : jsstring;
  status : AppStatus;
  copySuccess : bool;
  isDragging : bool;
  (* useMemo: the memoised value and the dependency it was computed for *)
  imageUrl : option N;
  imageUrl_dep : option N;
  (* URL.createObjectURL / URL.revokeObjectURL *)
  objectURLs : gset N;
  nextURL : N;
  (* navigator.clipboard *)
  clipboard : option jsstring;
  (* setTimeout: clock in ms, and the due times of the armed timers; the
     only callback ever armed is [() => setCopySuccess(false)] *)
  now : N;
  timers : list N;
  (* suspended runs of handleGeneratePrompt *)
  tasks : gmap N Awaiting;
  nextTask : N;
  (* calls of generatePromptFromImage: issuing task and the request sent *)
  clientCalls : list (N * Client.GenerateContentParameters)
}.

Definition cmd := World → World.

Definition andThen (c1 c2 : cmd) : cmd := λ w, c2 (c1 w).
Infix ">>" := andThen (at level 61, left associativity).

Definition skip : cmd := λ w, w.

Section Setters.
Local Abbreviation upd f := (λ w : World, f
  (imageFile w) (generatedPrompt w) (error w) (status w) (copySuccess w)
  (isDragging w) (imageUrl w) (imageUrl_dep w) (objectURLs w) (nextURL w)
  (clipboard w) (now w) (timers w) (tasks w) (nextTask w) (clientCalls w)).

Definition setImageFile (v : option File) : cmd :=
  upd (λ a b c d e f g h i j k l m n o p, Build_World v b c d e f g h i j k l m n o p).
Definition setGeneratedPrompt (v : jsstring) : cmd :=
  upd (λ a b c d e f g h i j k l m n o p, Build_World a v c d e f g h i j k l m n o p).
Definition setError (v : jsstring) : cmd :=
  upd (λ a b c d e f g h i j k l m n o p, Build_World a b v d e f g h i j k l m n o p).
Definition setStatus (v : AppStatus) : cmd :=
  upd (λ a b c d e f g h i j k l m n o p, Build_World a b c v e f g h i j k l m n o p).
Definition setCopySuccess (v : bool) : cmd :=
  upd (λ a b c d e f g h i j k l m n o p, Build_World a b c d v f g h i j k l m n o p).
Definition setIsDragging (v : bool) : cmd :=
  upd (λ a b c d e f g h i j k l m n o p, Build_World a b c d e v g h i j k l m n o p).

Definition set_memo (url dep : option N) : cmd :=
  upd (λ a b c d e f g h i j k l m n o p, Build_World a b c d e f url dep i j k l m n o p).
Definition set_objectURLs (v : gset N) (next : N) : cmd :=
  upd (λ a b c d e f g h i j k l m n o p, Build_World a b c d e f g h v next k l m n o p).
Definition set_clipboard (v : option jsstring) : cmd :=
  upd (λ a b c d e f g h i j k l m n o p, Build_World a b c d e f g h i j v l m n o p).
Definition set_now (v : N) : cmd :=
  upd (λ a b c d e f g h i j k l m n o p, Build_World a b c d e f g h i j k v m n o p).
Definition set_timers (v : list N) : cmd :=
  upd (λ a b c d e f g h i j k l m n o p, Build_World a b c d e f g h i j k l v n o p).
Definition set_tasks (v : gmap N Awaiting) (next : N) : cmd :=
  upd (λ a b c d e f g h i j k l m n o p, Build_World a b c d e f g h i j k l m v next p).
Definition set_clientCalls (v : list (N * Client.GenerateContentParameters)) : cmd :=
  upd (λ a b c d e f g h i j k l m n o p, Build_World a b c d e f g h i j k l m n o v).
End Setters.

(** *** Browser primitives *)

(** [URL.createObjectURL]: a fresh URL, registered until it is revoked. *)
Definition createObjectURL (w : World) : N * World :=
  let url := nextURL w in
  (url, set_objectURLs ({[url]} ∪ objectURLs w) (url + 1) w).

Definition revokeObjectURL (url : N) : cmd :=
  λ w, set_objectURLs (objectURLs w ∖ {[url]}) (nextURL w) w.

(** [navigator.clipboard.writeText] *)
Definition writeText (s : jsstring) : cmd := set_clipboard (Some s).

(** [setTimeout(callback, delay)] for the one callback of the program. *)
Definition setTimeout (delay : N) : cmd :=
  λ w, set_timers (timers w ++ [now w + delay]) w.

Definition due (t d : N) : bool := d <=? t.

(** The timers that have come due run their callback
    [() => setCopySuccess(false)], one after the other. *)
Fixpoint fire (fired : list N) : cmd :=
  match fired with
  | [] => skip
  | _ :: fired' => setCopySuccess false >> fire fired'
  end.

(** The clock advances by [ms]; every timer that has come due fires and is
    disarmed. *)
Definition elapse (ms : N) : cmd :=
  λ w,
    let t := now w + ms in
    let fired := List.filter (due t) (timers w) in
    let armed := List.filter (λ d, negb (due t d)) (timers w) in
    (set_now t >> set_timers armed >> fire fired) w.

(** *** Rendering: [useMemo(() => ..., [imageFile])] *)

Definition render : cmd :=
  λ w,
    let dep := ref <$> imageFile w in
    if decide (dep = imageUrl_dep w) then w
    else match imageFile w with
         | Some _ =>
             let '(url, w') := createObjectURL w in set_memo (Some url) dep w'
         | None => set_memo None dep w
         end.

(** *** Event handlers *)

Definition processFile (file : File) : cmd :=
  if negb (startsWith (type file) (lit "image/")) then
    setError (lit "Please select a valid image file.") >>
    setStatus Error >>
    setImageFile None
  else
    setImageFile (Some file) >>
    setGeneratedPrompt [] >>
    setError [] >>
    setStatus Previewing.

(** [file] is [event.target.files?.[0]]. *)
Definition handleImageChange (file : option File) : cmd :=
  match file with
  | Some file => processFile file
  | None => skip
  end.

Definition spawn (a : Awaiting) : cmd :=
  λ w, set_tasks (<[nextTask w := a]> (tasks w)) (nextTask w + 1) w.

Definition suspend (task : N) (a : Awaiting) : cmd :=
  λ w, set_tasks (<[task := a]> (tasks w)) (nextTask w) w.

Definition finish (task : N) : cmd :=
  λ w, set_tasks (delete task (tasks w)) (nextTask w) w.

Definition call_client (task : N) (rq : Client.GenerateContentParameters) : cmd :=
  λ w, set_clientCalls (clientCalls w ++ [(task, rq)]) w.

(** [handleGeneratePrompt] up to its first [await]. *)
Definition handleGeneratePrompt : cmd :=
  λ w,
    match imageFile w with
    | None =>
        (setError (lit "Please select an image first.") >> setStatus Error) w
    | Some imageFile =>
        (setStatus Generating >>
         setError [] >>
         setGeneratedPrompt [] >>
         spawn (fileToBase64 imageFile)) w
    end.

(** The [catch (err)] block of [handleGeneratePrompt]: [err.message] for an
    [Error], a fixed text for anything else. *)
Definition handleGeneratePrompt_catch (err : value) : cmd :=
  let errorMessage :=
    match err with
    | ErrorObject message => message
    | NonError => lit "An unknown error occurred."
    end in
  setError (lit "Failed to generate prompt: " ++ errorMessage) >>
  setStatus Error.

(** [await fileToBase64(imageFile)] settles.  The helper lives in
    [utils/fileUtils], outside the sources at hand; how its promise settles
    is an input of the event. *)
Definition fileToBase64_settled (task : N) (r : settled jsstring) : cmd :=
  λ w,
    match tasks w !! task with
    | Some (fileToBase64 imageFile) =>
        match r with
        | Fulfilled base64Image =>
            let mimeType := type imageFile in
            (call_client task (Client.request base64Image mimeType) >>
             suspend task (generateContent imageFile)) w
        | Rejected err => (finish task >> handleGeneratePrompt_catch err) w
        end
    | _ => w
    end.

(** The SDK call made by [generatePromptFromImage] settles; the client's
    promise settles accordingly and [handleGeneratePrompt] runs to its end. *)
Definition generateContent_settled
    (task : N) (api : settled (option Client.GenerateContentResponse)) : cmd :=
  λ w,
    match tasks w !! task with
    | Some (generateContent _) =>
        match Client.generatePromptFromImage api with
        | Fulfilled prompt =>
            (finish task >> setGeneratedPrompt prompt >> setStatus Success) w
        | Rejected err => (finish task >> handleGeneratePrompt_catch err) w
        end
    | _ => w
    end.

Definition handleCopyPrompt : cmd :=
  λ w,
    if truthy (generatedPrompt w) then
      (writeText (generatedPrompt w) >>
       setCopySuccess true >>
       setTimeout 2000) w
    else w.

Definition handleReset : cmd :=
  λ w,
    (setImageFile None >>
     setGeneratedPrompt [] >>
     setError [] >>
     setStatus Idle >>
     match imageUrl w with
     | Some imageUrl => revokeObjectURL imageUrl
     | None => skip
     end) w.

Definition handleDragOver : cmd := skip.

(** [hasItems] is [event.dataTransfer.items && items.length > 0]. *)
Definition handleDragEnter (hasItems : bool) : cmd :=
  if hasItems then setIsDragging true else skip.

Definition handleDragLeave : cmd := setIsDragging false.

(** [file] is [event.dataTransfer.files?.[0]]. *)
Definition handleDrop (file : option File) : cmd :=
  setIsDragging false >>
  match file with
  | Some file => processFile file
  | None => skip
  end.

(** *** The event loop *)

Inductive Event :=
| ImageChange (file : option File)
| DragOver
| DragEnter (hasItems : bool)
| DragLeave
| Drop (file : option File)
| GeneratePrompt
| FileToBase64Settled (task : N) (r : settled jsstring)
| GenerateContentSettled
    (task : N) (api : settled (option Client.GenerateContentResponse))
| CopyPrompt
| Reset
| Elapse (ms : N).

Definition handle (e : Event) : cmd :=
  match e with
  | ImageChange file => handleImageChange file
  | DragOver => handleDragOver
  | DragEnter hasItems => handleDragEnter hasItems
  | DragLeave => handleDragLeave
  | Drop file => handleDrop file
  | GeneratePrompt => handleGeneratePrompt
  | FileToBase64Settled task r => fileToBase64_settled task r
  | GenerateContentSettled task api => generateContent_settled task api
  | CopyPrompt => handleCopyPrompt
  | Reset => handleReset
  | Elapse ms => elapse ms
  end.

(** One turn of the event loop: the handler runs, then React renders. *)
Definition step (e : Event) : cmd := handle e >> render.

Definition run (es : list Event) : cmd := λ w, foldl (λ w e, step e w) w es.

(** The first render of [App]. *)
Definition init : World :=
  {| imageFile := None; generatedPrompt := []; error := []; status := Idle;
     copySuccess := false; isDragging := false;
     imageUrl := None; imageUrl_dep := None;
     objectURLs := ∅; nextURL := 0;
     clipboard := None;
     now := 0; timers := [];
     tasks := ∅; nextTask := 0;
     clientCalls := [] |}.

(** *** What the rendered page offers

    The JSX of [App] decides which handler the user can reach. *)

(** [{!imageFile && (<div ... onDrop={handleDrop}> ... <input ...
    onChange={handleImageChange} /> ...)}] *)
Definition uploadZone_rendered (w : World) : bool :=
  match imageFile w with None => true | Some _ => false end.

(** "Generate Prompt" under [status === 'previewing'], "Regenerate" under
    [generatedPrompt && status === 'success']. *)
Definition generateButton_rendered (w : World) : bool :=
  bool_decide (status w = Previewing)
  || (truthy (generatedPrompt w) && bool_decide (status w = Success)).

(** "Remove Image" under [{imageUrl && (...)}]. *)
Definition removeButton_rendered (w : World) : bool :=
  match imageUrl w with Some _ => true | None => false end.

(** The file an event submits to [processFile], if any. *)
Definition submitted (e : Event) : option File :=
  match e with
  | ImageChange file | Drop file => file
  | _ => None
  end.

(** The suspended run an event resumes, if any. *)
Definition settles (e : Event) : option N :=
  match e with
  | FileToBase64Settled task _ | GenerateContentSettled task _ => Some task
  | _ => None
  end.

(** Number of times the run [task] of [handleGeneratePrompt] has called
    [generatePromptFromImage]. *)
Definition calls_of (task : N) (w : World) : nat :=
  length (List.filter (λ c, fst c =? task) (clientCalls w)).

Definition reachable (w : World) : Prop := ∃ es, w = run es init.

(** No event of [es] resumes the run [task]. *)
Definition quiet (task : N) (es : list Event) : bool :=
  forallb (λ e, bool_decide (settles e ≠ Some task)) es.

(** Task numbers handed out so far lie below [nextTask]. *)
Definition tasks_ok (w : World) : Prop :=
  (∀ task a, tasks w !! task = Some a → task < nextTask w) ∧
  (∀ task rq, (task, rq) ∈ clientCalls w → task < nextTask w).

(** Where the run [task] of [handleGeneratePrompt] stands, against the
    number of client calls it has made. *)
Definition call_progress (task : N) (w : World) : Prop :=
  task < nextTask w ∧
  match tasks w !! task with
  | Some (fileToBase64 _) => calls_of task w = 0%nat
  | Some (generateContent _) => calls_of task w = 1%nat
  | None => (calls_of task w ≤ 1)%nat
  end.

(** A discipline on event sequences: a file is submitted only while the
    upload zone is rendered, and neither a generation nor a reset is
    requested while a run of [handleGeneratePrompt] is suspended. *)
Definition allowed (e : Event) (w : World) : bool :=
  match e with
  | ImageChange (Some _) | Drop (Some _) => uploadZone_rendered w
  | GeneratePrompt | Reset => bool_decide (tasks w = ∅)
  | _ => true
  end.

Fixpoint orderly (es : list Event) (w : World) : bool :=
  match es with
  | [] => true
  | e :: es' => allowed e w && orderly es' (step e w)
  end.

(** Between generations at most one of the two outputs is set, and none
    without an image; during a generation both are empty. *)
Definition outputs_exclusive (w : World) : Prop :=
  (tasks w = ∅ ∧
   (imageFile w = None → generatedPrompt w = []) ∧
   (generatedPrompt w = [] ∨ error w = [])) ∨
  (∃ task a, tasks w = {[task := a]} ∧
   is_Some (imageFile w) ∧ generatedPrompt w = [] ∧ error w = []).

(** What each status says about the two outputs, whatever the order of
    events.  [Uploading] is declared in [AppStatus] and never assigned. *)
Definition status_outputs (w : World) : Prop :=
  match status w with
  | Idle | Previewing | Generating => generatedPrompt w = [] ∧ error w = []
  | Error => error w ≠ []
  | Success => True
  | Uploading => False
  end.

(** An event that is neither a submission, nor a settlement, nor a request
    for generation or reset. *)
Definition passive (e : Event) : bool :=
  match e with
  | ImageChange None | Drop None | DragOver | DragEnter _ | DragLeave
  | CopyPrompt | Elapse _ => true
  | _ => false
  end.

(** Time that passes during an event, and during a sequence of events. *)
Definition duration (e : Event) : N :=
  match e with
  | Elapse ms => ms
  | _ => 0
  end.

Definition elapsed (es : list Event) : N := foldr (λ e t, duration e + t) 0 es.

(** The two files of the specification's scenarios. *)
Definition photo_png : File :=
  {| ref := 1; name := lit "photo.png"; type := lit "image/png" |}.

Definition notes_txt : File :=
  {| ref := 2; name := lit "notes.txt"; type := lit "text/plain" |}.

(** A well-formed SDK response carrying [t]. *)
Definition response_with (t : jsstring)
  : settled (option Client.GenerateContentResponse) :=
  Fulfilled (Some {| Client.text := Some t |}).

(** The memoised display handle agrees with the stored image: it was
    computed for the current [imageFile], and it is a registered object URL
    exactly when an image is stored. *)
Definition memo_ok (w : World) : Prop :=
  imageUrl_dep w = ref <$> imageFile w ∧
  match imageFile w with
  | Some _ => ∃ url, imageUrl w = Some url ∧ url ∈ objectURLs w
  | None => imageUrl w = None
  end.

(** ** Notions used by the further properties *)

(** The declared media type passes the test of [processFile]. *)
Definition image_typed (f : File) : Prop :=
  startsWith (type f) (lit "image/") = true.

(** The file a suspended run captured. *)
Definition captured (a : Awaiting) : File :=
  match a with
  | fileToBase64 imageFile | generateContent imageFile => imageFile
  end.

(** Only files that passed the test of [processFile] travel through the
    controller: the stored image, the files captured by suspended runs, and
    the media types the client was called with. *)
Definition images_only (w : World) : Prop :=
  (∀ f, imageFile w = Some f → image_typed f) ∧
  (∀ task a, tasks w !! task = Some a → image_typed (captured a)) ∧
  (∀ task rq, (task, rq) ∈ clientCalls w →
     ∃ base64Image f, rq = Client.request base64Image (type f) ∧ image_typed f).

(** Every armed timer comes due within 2000 ms, and the copy feedback is
    never on without a timer armed to switch it off. *)
Definition timers_ok (w : World) : Prop :=
  (∀ d, d ∈ timers w → d ≤ now w + 2000) ∧
  (copySuccess w = true → timers w ≠ []).

(** What each status says about the stored image and the suspended runs. *)
Definition status_image (w : World) : Prop :=
  match status w with
  | Idle => imageFile w = None
  | Previewing => is_Some (imageFile w)
  | Generating => is_Some (imageFile w) ∧ tasks w ≠ ∅
  | _ => True
  end.

(** Object URLs are handed out in increasing order. *)
Definition urls_fresh (w : World) : Prop :=
  (∀ url, url ∈ objectURLs w → url < nextURL w) ∧
  (∀ url, imageUrl w = Some url → url < nextURL w).

(** Suspended runs that still await the encoding of their image. *)
Definition awaits_encoding (a : Awaiting) : bool :=
  match a with
  | fileToBase64 _ => true
  | generateContent _ => false
  end.

Definition encoding (w : World) : gmap N Awaiting :=
  filter (λ ta, awaits_encoding ta.2 = true) (tasks w).

(** Number of generation requests in a sequence of events. *)
Definition requests (es : list Event) : nat :=
  length (List.filter (λ e, match e with GeneratePrompt => true | _ => false end) es).

(** * Properties *)

(** ** [String.prototype.startsWith] and [String.prototype.trim] *)

Lemma startsWith_spec s searchString :
  startsWith s searchString = true ↔ ∃ rest, s = searchString ++ rest.
Proof.
  revert s. induction searchString as [|c p IH]; intros [|d s].
  - split; [by exists []|done].
  - split; [by eexists|done].
  - split; [done|by intros [rest ?]].
  - change (startsWith (d :: s) (c :: p)) with ((d =? c) && startsWith s p).
    rewrite andb_true_iff, N.eqb_eq, IH. split.
    + intros [-> [rest ->]]. by exists rest.
    + intros [rest [= -> ->]]. split; [done|by exists rest].
Qed.

Lemma trimStart_spec s :
  ∃ leading,
    s = leading ++ trimStart s ∧
    Forall (λ c, isWhiteSpace c = true) leading ∧
    (∀ c rest, trimStart s = c :: rest → isWhiteSpace c = false).
Proof.
  induction s as [|c s (leading & Hs & Hws & Hhead)].
  - exists []. split_and!; [done|constructor|done].
  - cbn. destruct (isWhiteSpace c) eqn:Hc.
    + exists (c :: leading). split_and!; [by rewrite Hs at 1|by constructor|done].
    + exists []. split_and!; [done|constructor|].
      intros c' rest [= <- _]. done.
Qed.

Lemma trimStart_fixed s :
  (∀ c rest, s = c :: rest → isWhiteSpace c = false) → trimStart s = s.
Proof.
  destruct s as [|c s]; [done|]. intros H. cbn. by rewrite (H c s).
Qed.

(** [trim] removes a run of white space at each end, and nothing else: what
    is left neither starts nor ends with white space. *)
Lemma trim_spec s :
  ∃ leading trailing,
    s = leading ++ trim s ++ trailing ∧
    Forall (λ c, isWhiteSpace c = true) leading ∧
    Forall (λ c, isWhiteSpace c = true) trailing ∧
    (∀ c rest, trim s = c :: rest → isWhiteSpace c = false) ∧
    (∀ c rest, trim s = rest ++ [c] → isWhiteSpace c = false).
Proof.
  destruct (trimStart_spec s) as (leading & Hs & Hlead & Hhead).
  destruct (trimStart_spec (rev (trimStart s))) as (ending & Hr & Htrail & Hlast).
  assert (trimStart s = trim s ++ rev ending) as Hmid.
  { unfold trim, trimEnd. rewrite <- rev_app_distr, <- Hr.
    by rewrite rev_involutive. }
  exists leading, (rev ending). split_and!.
  - by rewrite <- Hmid.
  - done.
  - by apply List.Forall_rev.
  - intros c rest Hc. apply (Hhead c (rest ++ rev ending)).
    by rewrite Hmid, Hc.
  - intros c rest Hc. apply (Hlast c (rev rest)).
    unfold trim, trimEnd in Hc.
    apply (f_equal (@rev N)) in Hc.
    by rewrite rev_involutive, rev_app_distr in Hc.
Qed.

Lemma trim_idempotent s : trim (trim s) = trim s.
Proof.
  destruct (trim_spec s) as (leading & trailing & _ & _ & _ & Hhead & Hlast).
  unfold trim at 1. rewrite (trimStart_fixed (trim s)) by done.
  unfold trimEnd. rewrite trimStart_fixed; [apply rev_involutive|].
  intros c rest Hc. apply (Hlast c (rev rest)).
  apply (f_equal (@rev N)) in Hc.
  by rewrite rev_involutive in Hc.
Qed.

(** ** Rendering only touches the memo and the URL registry *)

Ltac unfold_cmds :=
  unfold step, handle, handleImageChange, handleDrop, handleDragEnter,
    handleDragLeave, handleDragOver, processFile, handleGeneratePrompt,
    handleGeneratePrompt_catch, handleCopyPrompt, handleReset,
    fileToBase64_settled, generateContent_settled,
    spawn, suspend, finish, call_client, writeText, setTimeout,
    revokeObjectURL, andThen, skip in *.

Section Render.
Variable w : World.

Ltac render_case :=
  unfold render, createObjectURL;
  destruct (decide _); [reflexivity|];
  destruct (imageFile w) eqn:Himg; cbn; rewrite ?Himg; reflexivity.

Lemma render_imageFile : imageFile (render w) = imageFile w.
Proof. render_case. Qed.
Lemma render_generatedPrompt : generatedPrompt (render w) = generatedPrompt w.
Proof. render_case. Qed.
Lemma render_error : error (render w) = error w.
Proof. render_case. Qed.
Lemma render_status : status (render w) = status w.
Proof. render_case. Qed.
Lemma render_copySuccess : copySuccess (render w) = copySuccess w.
Proof. render_case. Qed.
Lemma render_clipboard : clipboard (render w) = clipboard w.
Proof. render_case. Qed.
Lemma render_now : now (render w) = now w.
Proof. render_case. Qed.
Lemma render_timers : timers (render w) = timers w.
Proof. render_case. Qed.
Lemma render_tasks : tasks (render w) = tasks w.
Proof. render_case. Qed.
Lemma render_nextTask : nextTask (render w) = nextTask w.
Proof. render_case. Qed.
Lemma render_clientCalls : clientCalls (render w) = clientCalls w.
Proof. render_case. Qed.
Lemma render_calls_of task : calls_of task (render w) = calls_of task w.
Proof. unfold calls_of. by rewrite render_clientCalls. Qed.
End Render.

Create Rewrite HintDb render.
#[global] Hint Rewrite render_imageFile render_generatedPrompt render_error
  render_status render_copySuccess render_clipboard render_now render_timers
  render_tasks render_nextTask render_clientCalls render_calls_of : render.

Ltac through_render := unfold step, andThen; autorewrite with render.

(** ** Submitting a file *)

Lemma step_submitted e file w :
  submitted e = Some file →
  imageFile (step e w) = imageFile (processFile file w) ∧
  generatedPrompt (step e w) = generatedPrompt (processFile file w) ∧
  error (step e w) = error (processFile file w) ∧
  status (step e w) = status (processFile file w) ∧
  tasks (step e w) = tasks w ∧
  clientCalls (step e w) = clientCalls w.
Proof.
  intros He. through_render.
  destruct e; simplify_eq/=; unfold processFile;
    destruct (startsWith _ _); done.
Qed.

(** C2.  A file whose declared media type does not start with "image/" puts
    the controller in the error state with the message "Please select a
    valid image file." and leaves no image stored.  This holds for
    [processFile] itself and for both events that feed it (the picker's
    change event and a drop), from every prior state. *)
Theorem processFile_invalid_type (file : File) (e : Event) (w : World) :
  startsWith (type file) (lit "image/") = false →
  submitted e = Some file →
  (status (processFile file w) = Error ∧
   error (processFile file w) = lit "Please select a valid image file." ∧
   imageFile (processFile file w) = None) ∧
  (status (step e w) = Error ∧
   error (step e w) = lit "Please select a valid image file." ∧
   imageFile (step e w) = None).
Proof.
  intros Hty He.
  assert (status (processFile file w) = Error ∧
          error (processFile file w) = lit "Please select a valid image file." ∧
          imageFile (processFile file w) = None) as Hp.
  { unfold processFile. rewrite Hty. done. }
  split; [exact Hp|].
  destruct (step_submitted e file w He) as (-> & _ & -> & -> & _).
  tauto.
Qed.

(** C5.  A file whose declared media type starts with "image/" puts the
    controller in the previewing state from every prior state, stores the
    file as the image (whatever was stored before) and empties
    [generatedPrompt] and [error]. *)
Theorem processFile_image (file : File) (e : Event) (w : World) :
  startsWith (type file) (lit "image/") = true →
  submitted e = Some file →
  (status (processFile file w) = Previewing ∧
   imageFile (processFile file w) = Some file ∧
   generatedPrompt (processFile file w) = [] ∧
   error (processFile file w) = []) ∧
  (status (step e w) = Previewing ∧
   imageFile (step e w) = Some file ∧
   generatedPrompt (step e w) = [] ∧
   error (step e w) = []).
Proof.
  intros Hty He.
  assert (status (processFile file w) = Previewing ∧
          imageFile (processFile file w) = Some file ∧
          generatedPrompt (processFile file w) = [] ∧
          error (processFile file w) = []) as Hp.
  { unfold processFile. rewrite Hty. done. }
  split; [exact Hp|].
  destruct (step_submitted e file w He) as (-> & -> & -> & -> & _).
  tauto.
Qed.

Lemma processFile_invalid_type_witness :
  startsWith (type notes_txt) (lit "image/") = false ∧
  status (step (Drop (Some notes_txt)) init) = Error ∧
  error (step (Drop (Some notes_txt)) init) =
    lit "Please select a valid image file." ∧
  imageFile (step (Drop (Some notes_txt)) init) = None.
Proof.
  split; [reflexivity|].
  destruct (processFile_invalid_type notes_txt (Drop (Some notes_txt)) init)
    as [_ H]; [reflexivity | reflexivity | exact H].
Defined.

Lemma processFile_image_witness :
  let w := run [Drop (Some notes_txt)] init in
  startsWith (type photo_png) (lit "image/") = true ∧
  status w = Error ∧
  status (step (ImageChange (Some photo_png)) w) = Previewing ∧
  imageFile (step (ImageChange (Some photo_png)) w) = Some photo_png ∧
  generatedPrompt (step (ImageChange (Some photo_png)) w) = [] ∧
  error (step (ImageChange (Some photo_png)) w) = [].
Proof.
  intros w. split; [reflexivity|]. split; [reflexivity|].
  destruct (processFile_image photo_png (ImageChange (Some photo_png)) w)
    as [_ H]; [reflexivity | reflexivity | exact H].
Defined.

(** ** Requesting a generation without an image *)

Lemma step_GeneratePrompt_no_image (w : World) :
  imageFile w = None →
  status (step GeneratePrompt w) = Error ∧
  error (step GeneratePrompt w) = lit "Please select an image first." ∧
  generatedPrompt (step GeneratePrompt w) = generatedPrompt w ∧
  imageFile (step GeneratePrompt w) = None ∧
  clientCalls (step GeneratePrompt w) = clientCalls w ∧
  tasks (step GeneratePrompt w) = tasks w ∧
  nextTask (step GeneratePrompt w) = nextTask w.
Proof.
  intros Himg. through_render. cbn.
  unfold handleGeneratePrompt. rewrite Himg. done.
Qed.

(** C3.  [handleGeneratePrompt] called while no image is stored puts the
    controller in the error state with the message "Please select an image
    first."; it neither calls the generation client nor leaves a suspended
    run behind that could call it later. *)
Theorem handleGeneratePrompt_no_image (w : World) :
  imageFile w = None →
  status (step GeneratePrompt w) = Error ∧
  error (step GeneratePrompt w) = lit "Please select an image first." ∧
  clientCalls (step GeneratePrompt w) = clientCalls w ∧
  tasks (step GeneratePrompt w) = tasks w ∧
  nextTask (step GeneratePrompt w) = nextTask w.
Proof.
  intros Himg.
  destruct (step_GeneratePrompt_no_image w Himg) as (? & ? & _ & _ & ? & ? & ?).
  done.
Qed.

Lemma handleGeneratePrompt_no_image_witness :
  imageFile init = None ∧
  status (step GeneratePrompt init) = Error ∧
  error (step GeneratePrompt init) = lit "Please select an image first." ∧
  clientCalls (step GeneratePrompt init) = [].
Proof.
  split; [reflexivity|].
  destruct (handleGeneratePrompt_no_image init) as (Hs & He & Hc & _);
    [reflexivity | exact (conj Hs (conj He Hc))].
Defined.

(** ** The display handle *)

Lemma render_memo_ok (w0 w : World) :
  memo_ok w0 →
  imageUrl w = imageUrl w0 →
  imageUrl_dep w = imageUrl_dep w0 →
  (imageFile w = None ∨ objectURLs w = objectURLs w0) →
  memo_ok (render w).
Proof.
  intros [Hdep Hurl] Hu Hd Hkeep. unfold memo_ok, render.
  destruct (decide _) as [Heq|Hne].
  - split; [done|].
    rewrite Hd, Hdep in Heq.
    destruct (imageFile w) as [f|], (imageFile w0) as [f0|]; try done.
    + destruct Hkeep as [?|Hkeep]; [done|]. by rewrite Hu, Hkeep.
    + by rewrite Hu.
  - destruct (imageFile w) as [f|] eqn:Hw; cbn; rewrite Hw; cbn.
    + split; [done|]. exists (nextURL w). split; [done|]. set_solver.
    + done.
Qed.

Lemma fire_cons (d : N) (ds : list N) (w : World) :
  fire (d :: ds) w = setCopySuccess false w.
Proof.
  revert d w. induction ds as [|d' ds IH]; intros d w; [done|].
  change (fire (d :: d' :: ds) w) with (fire (d' :: ds) (setCopySuccess false w)).
  by rewrite IH.
Qed.

Lemma handle_memo (e : Event) (w : World) :
  imageUrl (handle e w) = imageUrl w ∧
  imageUrl_dep (handle e w) = imageUrl_dep w ∧
  (imageFile (handle e w) = None ∨ objectURLs (handle e w) = objectURLs w).
Proof.
  destruct e as [file| |hasItems| |file| |task r|task api| | |ms]; cbn.
  11: { unfold elapse, andThen.
        destruct (List.filter (due _) _); [|rewrite fire_cons]; cbn; auto. }
  all: unfold_cmds; cbn; repeat case_match; cbn; auto.
Qed.

Lemma step_memo_ok (e : Event) (w : World) : memo_ok w → memo_ok (step e w).
Proof.
  intros Hw. destruct (handle_memo e w) as (Hu & Hd & Hkeep).
  unfold step, andThen. by eapply render_memo_ok.
Qed.

Lemma run_snoc (es : list Event) (e : Event) (w : World) :
  run (es ++ [e]) w = step e (run es w).
Proof. unfold run. by rewrite foldl_snoc. Qed.

Lemma run_app (es1 es2 : list Event) (w : World) :
  run (es1 ++ es2) w = run es2 (run es1 w).
Proof. unfold run. by rewrite foldl_app. Qed.

Lemma run_cons (e : Event) (es : list Event) (w : World) :
  run (e :: es) w = run es (step e w).
Proof. reflexivity. Qed.

Lemma reachable_ind (P : World → Prop) :
  P init →
  (∀ e w, reachable w → P w → P (step e w)) →
  ∀ w, reachable w → P w.
Proof.
  intros Hinit Hstep w [es ->].
  induction es as [|e es IH] using rev_ind; [exact Hinit|].
  rewrite run_snoc. apply Hstep; [by exists es | exact IH].
Qed.

Lemma reachable_step (e : Event) (w : World) :
  reachable w → reachable (step e w).
Proof. intros [es ->]. exists (es ++ [e]). by rewrite run_snoc. Qed.

Lemma reachable_memo_ok (w : World) : reachable w → memo_ok w.
Proof.
  revert w. apply reachable_ind; [done|].
  intros e w _. apply step_memo_ok.
Qed.

(** C6.  [handleReset] returns the controller to idle with no image and
    empty [generatedPrompt] and [error], whatever the prior state; the object
    URL held by the memo is revoked.  In every state the controller can
    reach, a stored image has such a registered URL, so that reset releases
    the display handle bound to the image, and the memo is empty afterwards. *)
Theorem handleReset_idle :
  (∀ w : World,
     status (step Reset w) = Idle ∧
     imageFile (step Reset w) = None ∧
     generatedPrompt (step Reset w) = [] ∧
     error (step Reset w) = [] ∧
     match imageUrl w with
     | Some url => url ∉ objectURLs (step Reset w)
     | None => objectURLs (step Reset w) = objectURLs w
     end) ∧
  (∀ es : list Event,
     let w := run es init in
     imageUrl (step Reset w) = None ∧
     match imageFile w with
     | Some _ =>
         ∃ url, imageUrl w = Some url ∧
                url ∈ objectURLs w ∧ url ∉ objectURLs (step Reset w)
     | None => objectURLs (step Reset w) = objectURLs w
     end).
Proof.
  assert (∀ w, objectURLs (step Reset w) = objectURLs (handleReset w)) as Hreg.
  { intros w. unfold step, andThen, render. cbn.
    destruct (decide _); [done|].
    unfold handleReset, andThen. destruct (imageUrl w); done. }
  split.
  - intros w. rewrite Hreg. through_render. cbn.
    unfold handleReset, andThen, revokeObjectURL, skip.
    destruct (imageUrl w); cbn; split_and!; try done. set_solver.
  - intros es w.
    assert (memo_ok w) as [Hdep Hurl] by (apply reachable_memo_ok; by exists es).
    assert (memo_ok (step Reset w)) as [_ Hafter]
      by (apply step_memo_ok; done).
    split.
    + revert Hafter. through_render.
      replace (imageFile (handle Reset w)) with (@None File); [done|].
      cbn. unfold handleReset, andThen. by destruct (imageUrl w).
    + rewrite Hreg. unfold handleReset, andThen, revokeObjectURL, skip.
      destruct (imageFile w) as [f|].
      * destruct Hurl as (url & Hu & Hin). exists url. rewrite Hu. cbn.
        split_and!; [done|done|set_solver].
      * rewrite Hurl. done.
Qed.

(** ** The generation client *)

Lemma generatePromptFromImage_text response t :
  Client.response_text response = Some t →
  Client.generatePromptFromImage (Fulfilled response) = Fulfilled (trim t).
Proof. intros H. unfold Client.generatePromptFromImage. cbn. by rewrite H. Qed.

Lemma generatePromptFromImage_service_error message :
  Client.generatePromptFromImage (Rejected (ErrorObject message)) =
  Rejected (ErrorObject (lit "Gemini API Error: " ++ message)).
Proof. reflexivity. Qed.

Lemma generatePromptFromImage_unknown_error :
  Client.generatePromptFromImage (Rejected NonError) =
  Rejected (ErrorObject Client.unknown_error_message).
Proof. reflexivity. Qed.

(** The client never fulfils with anything but the trimmed text of a
    response, and never rejects with anything but an [Error]. *)
Lemma generatePromptFromImage_cases api :
  (∃ response t, api = Fulfilled response ∧
     Client.response_text response = Some t ∧
     Client.generatePromptFromImage api = Fulfilled (trim t)) ∨
  (∃ message, Client.generatePromptFromImage api = Rejected (ErrorObject message)).
Proof.
  destruct api as [response|[message|]].
  - destruct (Client.response_text response) as [t|] eqn:Ht.
    + left. exists response, t. by rewrite (generatePromptFromImage_text _ t).
    + right. eexists. unfold Client.generatePromptFromImage. cbn.
      by rewrite Ht.
  - right. by eexists.
  - right. by eexists.
Qed.

(** C10, as the code has it.  When the SDK call succeeds with an empty or
    malformed response (nullish response, no text, or empty text), the
    client rejects with an [Error] whose message is
    "Gemini API Error: The API response was empty or invalid.".  The error
    raised for the empty response is thrown inside the [try] block and goes
    through the [catch] block like a failure of the SDK call: the rejection
    is the one [catch_block] produces for it, it coincides with the
    rejection a service error carrying the same message produces, and only
    with that one; it differs from the unknown-error rejection. *)
Theorem generatePromptFromImage_empty_response
    (response : option Client.GenerateContentResponse) :
  Client.response_text response = None →
  Client.generatePromptFromImage (Fulfilled response) =
    Rejected (ErrorObject
      (lit "Gemini API Error: The API response was empty or invalid.")) ∧
  Client.generatePromptFromImage (Fulfilled response) =
    Client.catch_block (ErrorObject Client.empty_response_message) ∧
  (∀ message,
     Client.generatePromptFromImage (Rejected (ErrorObject message)) =
     Client.generatePromptFromImage (Fulfilled response)
     ↔ message = Client.empty_response_message) ∧
  Client.generatePromptFromImage (Fulfilled response) ≠
    Client.generatePromptFromImage (Rejected NonError).
Proof.
  intros Hempty.
  assert (Client.generatePromptFromImage (Fulfilled response) =
          Client.catch_block (ErrorObject Client.empty_response_message)) as ->.
  { unfold Client.generatePromptFromImage. cbn. by rewrite Hempty. }
  split_and!; [done|done| |done].
  intros message. rewrite generatePromptFromImage_service_error. cbn.
  split; [|by intros ->].
  intros H. injection H as H. exact H.
Qed.

Lemma generatePromptFromImage_empty_response_witness :
  Client.response_text (Some {| Client.text := Some [] |}) = None ∧
  Client.generatePromptFromImage
    (Fulfilled (Some {| Client.text := Some [] |})) =
  Rejected (ErrorObject
    (lit "Gemini API Error: The API response was empty or invalid.")).
Proof.
  split; [reflexivity|].
  destruct (generatePromptFromImage_empty_response
              (Some {| Client.text := Some [] |})) as [H _];
    [reflexivity | exact H].
Defined.

(** C10 as stated fails: the failure for an empty response is not distinct
    from a service error.  A response without text and an SDK rejection
    with the message "The API response was empty or invalid." make the
    client reject in the very same way, with the service-error prefix. *)
Lemma empty_response_is_service_error :
  Client.generatePromptFromImage (Fulfilled (Some {| Client.text := None |})) =
  Client.generatePromptFromImage
    (Rejected (ErrorObject (lit "The API response was empty or invalid."))) ∧
  Client.generatePromptFromImage (Fulfilled (Some {| Client.text := None |})) =
  Rejected (ErrorObject
    (lit "Gemini API Error: " ++ lit "The API response was empty or invalid.")).
Proof. split; reflexivity. Qed.

(** ** Suspended runs of [handleGeneratePrompt] *)

Lemma calls_of_call_client task t rq w :
  calls_of task (call_client t rq w) =
  (calls_of task w + if bool_decide (t = task) then 1 else 0)%nat.
Proof.
  unfold calls_of, call_client. cbn.
  rewrite List.filter_app, length_app. cbn.
  case_bool_decide as Ht.
  - apply N.eqb_eq in Ht. by rewrite Ht.
  - apply N.eqb_neq in Ht. by rewrite Ht.
Qed.

Lemma calls_of_same task w w' :
  clientCalls w' = clientCalls w → calls_of task w' = calls_of task w.
Proof. unfold calls_of. by intros ->. Qed.

Lemma calls_of_none task w :
  (∀ rq, (task, rq) ∉ clientCalls w) → calls_of task w = 0%nat.
Proof.
  unfold calls_of. induction (clientCalls w) as [|[t rq] l IH]; [done|].
  intros Hnot. cbn. destruct (N.eqb_spec t task) as [->|_].
  - exfalso. apply (Hnot rq). left.
  - apply IH. intros rq' Hin. apply (Hnot rq'). by right.
Qed.

Lemma handle_nextTask_mono e w : nextTask w ≤ nextTask (handle e w).
Proof.
  destruct e as [file| |hasItems| |file| |task r|task api| | |ms]; cbn.
  11: { unfold elapse, andThen.
        destruct (List.filter (due _) _); [|rewrite fire_cons]; cbn; lia. }
  all: unfold_cmds; cbn; repeat case_match; cbn; lia.
Qed.

Lemma step_nextTask_mono e w : nextTask w ≤ nextTask (step e w).
Proof. through_render. apply handle_nextTask_mono. Qed.

(** An event that does not resume [task] leaves that run alone. *)
Lemma step_other_task e task w :
  settles e ≠ Some task →
  task < nextTask w →
  tasks (step e w) !! task = tasks w !! task ∧
  calls_of task (step e w) = calls_of task w.
Proof.
  intros Hother Hlt. through_render.
  destruct e as [file| |hasItems| |file| |t r|t api| | |ms]; cbn.
  11: { unfold elapse, andThen.
        destruct (List.filter (due _) _); [|rewrite fire_cons]; done. }
  7: { assert (t ≠ task) as Hne by (cbn in Hother; congruence).
       unfold fileToBase64_settled.
       destruct (tasks w !! t) as [[f|f]|]; [|done..].
       destruct r as [base64Image|err]; unfold andThen.
       - split; [cbn; by rewrite lookup_insert_ne|].
         pose proof (calls_of_call_client task t
           (Client.request base64Image (type f)) w) as Hc.
         rewrite bool_decide_false, Nat.add_0_r in Hc by done. exact Hc.
       - cbn. by rewrite lookup_delete_ne. }
  7: { assert (t ≠ task) as Hne by (cbn in Hother; congruence).
       unfold generateContent_settled.
       destruct (tasks w !! t) as [[f|f]|]; [done| |done].
       destruct (Client.generatePromptFromImage api); unfold andThen; cbn;
         by rewrite lookup_delete_ne. }
  all: unfold_cmds; cbn; repeat case_match; cbn; try done.
  rewrite lookup_insert_ne by lia. done.
Qed.

Lemma run_quiet es task w :
  quiet task es = true →
  task < nextTask w →
  tasks (run es w) !! task = tasks w !! task ∧
  calls_of task (run es w) = calls_of task w ∧
  task < nextTask (run es w).
Proof.
  revert w. induction es as [|e es IH]; intros w Hq Hlt; [done|].
  cbn in Hq. apply andb_prop in Hq as [He Hq]. apply bool_decide_eq_true in He.
  rewrite run_cons.
  destruct (step_other_task e task w He Hlt) as [<- <-].
  apply IH; [done|]. pose proof (step_nextTask_mono e w). lia.
Qed.

(** [handleGeneratePrompt] with an image stored: the synchronous part. *)
Lemma step_GeneratePrompt f w :
  imageFile w = Some f →
  let w' := step GeneratePrompt w in
  tasks w' = <[nextTask w := fileToBase64 f]> (tasks w) ∧
  nextTask w' = nextTask w + 1 ∧
  clientCalls w' = clientCalls w ∧
  imageFile w' = Some f ∧
  status w' = Generating ∧ generatedPrompt w' = [] ∧ error w' = [].
Proof.
  intros Himg. cbn. through_render. cbn.
  unfold handleGeneratePrompt. rewrite Himg. done.
Qed.

(** The encoding fulfils: the client is called, with the encoded image and
    the media type of the captured file. *)
Lemma step_FileToBase64_fulfilled task f base64Image w :
  tasks w !! task = Some (fileToBase64 f) →
  let w' := step (FileToBase64Settled task (Fulfilled base64Image)) w in
  tasks w' = <[task := generateContent f]> (tasks w) ∧
  nextTask w' = nextTask w ∧
  clientCalls w' =
    clientCalls w ++ [(task, Client.request base64Image (type f))] ∧
  calls_of task w' = S (calls_of task w) ∧
  imageFile w' = imageFile w ∧
  status w' = status w ∧
  generatedPrompt w' = generatedPrompt w ∧ error w' = error w.
Proof.
  intros Ht. cbn. through_render. cbn.
  unfold fileToBase64_settled. rewrite Ht. unfold andThen.
  split_and!; try done.
  pose proof (calls_of_call_client task task
    (Client.request base64Image (type f)) w) as Hc.
  rewrite bool_decide_true, Nat.add_1_r in Hc by done. exact Hc.
Qed.

(** The encoding rejects: the [catch] block runs and the client is never
    reached. *)
Lemma step_FileToBase64_rejected task f err w :
  tasks w !! task = Some (fileToBase64 f) →
  let w' := step (FileToBase64Settled task (Rejected err)) w in
  tasks w' = delete task (tasks w) ∧
  nextTask w' = nextTask w ∧
  clientCalls w' = clientCalls w ∧
  status w' = Error ∧
  generatedPrompt w' = generatedPrompt w ∧
  error w' = lit "Failed to generate prompt: " ++
             match err with
             | ErrorObject message => message
             | NonError => lit "An unknown error occurred."
             end.
Proof.
  intros Ht. cbn. through_render. cbn.
  unfold fileToBase64_settled. rewrite Ht. done.
Qed.

(** The client's promise settles: [handleGeneratePrompt] runs to its end. *)
Lemma step_GenerateContent_settled task f api w :
  tasks w !! task = Some (generateContent f) →
  let w' := step (GenerateContentSettled task api) w in
  tasks w' = delete task (tasks w) ∧
  nextTask w' = nextTask w ∧
  clientCalls w' = clientCalls w ∧
  imageFile w' = imageFile w ∧
  match Client.generatePromptFromImage api with
  | Fulfilled prompt =>
      status w' = Success ∧ generatedPrompt w' = prompt ∧ error w' = error w
  | Rejected err =>
      status w' = Error ∧ generatedPrompt w' = generatedPrompt w ∧
      error w' = lit "Failed to generate prompt: " ++
                 match err with
                 | ErrorObject message => message
                 | NonError => lit "An unknown error occurred."
                 end
  end.
Proof.
  intros Ht. cbn. through_render. cbn.
  unfold generateContent_settled. rewrite Ht.
  destruct (Client.generatePromptFromImage api); done.
Qed.

(** An event addressed to a run that is not suspended changes nothing. *)
Lemma handle_settle_stale e task w :
  settles e = Some task → tasks w !! task = None → handle e w = w.
Proof.
  intros He Ht.
  destruct e; simplify_eq/=;
    unfold fileToBase64_settled, generateContent_settled; by rewrite Ht.
Qed.

Lemma step_call_progress e task w :
  call_progress task w → call_progress task (step e w).
Proof.
  intros [Hlt Hp]. split; [pose proof (step_nextTask_mono e w); lia|].
  destruct (decide (settles e = Some task)) as [He|He].
  - destruct (tasks w !! task) as [[f|f]|] eqn:Ht.
    + destruct e as [| | | | | |t [base64Image|err]|t api| | |];
        try discriminate He; cbn in He; injection He as He; subst t.
      * destruct (step_FileToBase64_fulfilled task f base64Image w Ht)
          as (-> & _ & _ & -> & _).
        rewrite lookup_insert_eq. by rewrite Hp.
      * destruct (step_FileToBase64_rejected task f err w Ht)
          as (-> & _ & Hc & _).
        rewrite lookup_delete_eq, (calls_of_same _ _ _ Hc), Hp. lia.
      * through_render.
        replace (handle (GenerateContentSettled task api) w) with w
          by (cbn; unfold generateContent_settled; by rewrite Ht).
        by rewrite Ht.
    + destruct e as [| | | | | |t r|t api| | |];
        try discriminate He; cbn in He; injection He as He; subst t.
      * through_render.
        replace (handle (FileToBase64Settled task r) w) with w
          by (cbn; unfold fileToBase64_settled; by rewrite Ht).
        by rewrite Ht.
      * destruct (step_GenerateContent_settled task f api w Ht)
          as (-> & _ & Hc & _).
        rewrite lookup_delete_eq, (calls_of_same _ _ _ Hc), Hp. lia.
    + through_render. rewrite (handle_settle_stale e task w He Ht).
      by rewrite Ht.
  - destruct (step_other_task e task w He Hlt) as [-> ->]. exact Hp.
Qed.

Lemma run_call_progress es task w :
  call_progress task w → call_progress task (run es w).
Proof.
  revert w. induction es as [|e es IH]; intros w Hp; [done|].
  rewrite run_cons. by apply IH, step_call_progress.
Qed.

(** What one turn of the event loop can do to the table of suspended runs
    and to the record of client calls. *)
Lemma step_tasks_cases e w :
  (tasks (step e w) = tasks w ∧ nextTask (step e w) = nextTask w ∧
   clientCalls (step e w) = clientCalls w) ∨
  (∃ f, tasks (step e w) = <[nextTask w := fileToBase64 f]> (tasks w) ∧
        nextTask (step e w) = nextTask w + 1 ∧
        clientCalls (step e w) = clientCalls w) ∨
  (∃ task f rq, tasks w !! task = Some (fileToBase64 f) ∧
        tasks (step e w) = <[task := generateContent f]> (tasks w) ∧
        nextTask (step e w) = nextTask w ∧
        clientCalls (step e w) = clientCalls w ++ [(task, rq)]) ∨
  (∃ task a, tasks w !! task = Some a ∧
        tasks (step e w) = delete task (tasks w) ∧
        nextTask (step e w) = nextTask w ∧
        clientCalls (step e w) = clientCalls w).
Proof.
  destruct e as [file| |hasItems| |file| |t r|t api| | |ms].
  6: { destruct (imageFile w) as [f|] eqn:Himg.
       - right. left. exists f.
         destruct (step_GeneratePrompt f w Himg) as (? & ? & ? & _). done.
       - left. destruct (step_GeneratePrompt_no_image w Himg)
           as (_ & _ & _ & _ & ? & ? & ?). done. }
  6: { destruct (tasks w !! t) as [[f|f]|] eqn:Ht.
       - destruct r as [base64Image|err].
         + right. right. left. exists t, f. eexists.
           destruct (step_FileToBase64_fulfilled t f base64Image w Ht)
             as (? & ? & ? & _). done.
         + right. right. right. exists t. eexists.
           destruct (step_FileToBase64_rejected t f err w Ht)
             as (? & ? & ? & _). done.
       - left. through_render. cbn. unfold fileToBase64_settled.
         by rewrite Ht.
       - left. through_render. cbn. unfold fileToBase64_settled.
         by rewrite Ht. }
  6: { destruct (tasks w !! t) as [[f|f]|] eqn:Ht.
       - left. through_render. cbn. unfold generateContent_settled.
         by rewrite Ht.
       - right. right. right. exists t. eexists.
         destruct (step_GenerateContent_settled t f api w Ht)
           as (? & ? & ? & _). done.
       - left. through_render. cbn. unfold generateContent_settled.
         by rewrite Ht. }
  8: { left. through_render. cbn. unfold elapse, andThen.
       destruct (List.filter (due _) _); [|rewrite fire_cons]; done. }
  all: left; through_render; cbn; unfold_cmds; cbn; repeat case_match; done.
Qed.

Lemma step_tasks_ok e w : tasks_ok w → tasks_ok (step e w).
Proof.
  intros [Htasks Hcalls].
  destruct (step_tasks_cases e w) as
    [(Ht & Hn & Hc)|[(f & Ht & Hn & Hc)|[(t & f & rq & Hw & Ht & Hn & Hc)
    |(t & a & Hw & Ht & Hn & Hc)]]];
    unfold tasks_ok; rewrite Ht, Hn, Hc; split.
  - done.
  - done.
  - intros task a Hl. apply lookup_insert_Some in Hl as [[<- _]|[_ Hl]];
      [lia|]. apply Htasks in Hl. lia.
  - intros task rq Hin. apply Hcalls in Hin. lia.
  - intros task a Hl. apply lookup_insert_Some in Hl as [[<- _]|[_ Hl]];
      eauto.
  - intros task rq' Hin. apply elem_of_app in Hin as [Hin|Hin]; [eauto|].
    apply list_elem_of_singleton in Hin. simplify_eq. eauto.
  - intros task a' Hl. apply lookup_delete_Some in Hl as [_ Hl]. eauto.
  - done.
Qed.

Lemma reachable_tasks_ok w : reachable w → tasks_ok w.
Proof.
  revert w. apply reachable_ind.
  - split; [intros task a H; cbn in H; by rewrite lookup_empty in H|].
    intros task rq H. cbn in H. by apply not_elem_of_nil in H.
  - intros e w _. apply step_tasks_ok.
Qed.

(** A run that has ended never calls the client again. *)
Lemma step_finished e task w :
  tasks w !! task = None →
  task < nextTask w →
  tasks (step e w) !! task = None ∧
  calls_of task (step e w) = calls_of task w ∧
  task < nextTask (step e w).
Proof.
  intros Ht Hlt.
  assert (task < nextTask (step e w))
    by (pose proof (step_nextTask_mono e w); lia).
  destruct (decide (settles e = Some task)) as [He|He].
  - through_render. by rewrite (handle_settle_stale e task w He Ht).
  - destruct (step_other_task e task w He Hlt) as [-> ->]. done.
Qed.

Lemma run_finished es task w :
  tasks w !! task = None →
  task < nextTask w →
  calls_of task (run es w) = calls_of task w.
Proof.
  revert w. induction es as [|e es IH]; intros w Ht Hlt; [done|].
  rewrite run_cons.
  destruct (step_finished e task w Ht Hlt) as (Ht' & <- & Hlt').
  by apply IH.
Qed.

(** The record of client calls only grows. *)
Lemma run_clientCalls_grow es w : ∃ more, clientCalls (run es w) = clientCalls w ++ more.
Proof.
  revert w. induction es as [|e es IH]; intros w.
  - exists []. by rewrite app_nil_r.
  - rewrite run_cons. destruct (IH (step e w)) as [more ->].
    destruct (step_tasks_cases e w) as
      [(_ & _ & ->)|[(f & _ & _ & ->)|[(t & f & rq & _ & _ & _ & ->)
      |(t & a & _ & _ & _ & ->)]]]; eauto.
    exists ([(t, rq)] ++ more). by rewrite app_assoc.
Qed.

(** C1, as the code has it.  A call of [handleGeneratePrompt] made while an
    image is stored calls the generation client at most once, whatever
    happens afterwards; it calls it exactly once as soon as the encoding of
    the image ([fileToBase64], awaited first in the same [try] block)
    fulfils, with the encoded image and the media type of the stored file;
    if the SDK call then answers with a non-empty text, the state is success
    and [generatedPrompt] is that text with leading and trailing white space
    removed.  If the encoding rejects, the client is never called.  Events
    that concern other runs may be interleaved at will. *)
Theorem handleGeneratePrompt_calls_client (w : World) (f : File) :
  reachable w →
  imageFile w = Some f →
  let task := nextTask w in
  (∀ es, (calls_of task (run (GeneratePrompt :: es) w) ≤ 1)%nat) ∧
  (∀ es1 base64Image es2,
     quiet task es1 = true →
     let w2 := run (GeneratePrompt :: es1 ++
                    FileToBase64Settled task (Fulfilled base64Image) :: es2) w in
     calls_of task w2 = 1%nat ∧
     (task, Client.request base64Image (type f)) ∈ clientCalls w2 ∧
     (quiet task es2 = true →
      ∀ response t,
        Client.response_text response = Some t →
        let w3 := step (GenerateContentSettled task (Fulfilled response)) w2 in
        status w3 = Success ∧
        generatedPrompt w3 = trim t ∧
        ∀ es3, calls_of task (run es3 w3) = 1%nat)) ∧
  (∀ es1 reason,
     quiet task es1 = true →
     let w2 := run (GeneratePrompt :: es1 ++
                    [FileToBase64Settled task (Rejected reason)]) w in
     status w2 = Error ∧
     error w2 = lit "Failed to generate prompt: " ++
                match reason with
                | ErrorObject message => message
                | NonError => lit "An unknown error occurred."
                end ∧
     ∀ es2, calls_of task (run es2 w2) = 0%nat).
Proof.
  intros Hreach Himg task.
  destruct (reachable_tasks_ok w Hreach) as [Hbelow Hcalls].
  destruct (step_GeneratePrompt f w Himg) as (Ht0 & Hn0 & Hc0 & _).
  set (w0 := step GeneratePrompt w) in *.
  assert (calls_of task w = 0%nat) as Hzero.
  { apply calls_of_none. intros rq Hin. apply Hcalls in Hin. subst task. lia. }
  assert (tasks w0 !! task = Some (fileToBase64 f)) as Hl0
    by (rewrite Ht0; apply lookup_insert_eq).
  assert (task < nextTask w0) as Hlt0 by (rewrite Hn0; subst task; lia).
  assert (calls_of task w0 = 0%nat) as Hz0
    by (by rewrite (calls_of_same _ _ _ Hc0)).
  assert (call_progress task w0) as Hp0 by (split; [done|by rewrite Hl0]).
  assert (∀ es1, quiet task es1 = true →
            tasks (run es1 w0) !! task = Some (fileToBase64 f) ∧
            calls_of task (run es1 w0) = 0%nat ∧
            task < nextTask (run es1 w0)) as Hquiet1.
  { intros es1 Hq. destruct (run_quiet es1 task w0 Hq Hlt0) as (-> & -> & ?).
    done. }
  split_and!.
  - intros es. rewrite run_cons. fold w0.
    destruct (run_call_progress es task w0 Hp0) as [_ Hp].
    repeat case_match; lia.
  - intros es1 base64Image es2 Hq1. rewrite run_cons, run_app, run_cons.
    fold w0. cbn zeta.
    destruct (Hquiet1 es1 Hq1) as (Hl1 & Hz1 & Hlt1).
    destruct (step_FileToBase64_fulfilled task f base64Image _ Hl1)
      as (Ht2 & Hn2 & Hc2 & Hs2 & _).
    set (w2 := step _ (run es1 w0)) in *.
    assert (call_progress task w2) as Hp2.
    { split; [by rewrite Hn2|].
      by rewrite Ht2, lookup_insert_eq, Hs2, Hz1. }
    assert (calls_of task (run es2 w2) = 1%nat) as Hone.
    { destruct (run_call_progress es2 task w2 Hp2) as [_ Hp].
      destruct (run_clientCalls_grow es2 w2) as [more Hmore].
      assert (calls_of task w2 ≤ calls_of task (run es2 w2))%nat.
      { unfold calls_of. rewrite Hmore, List.filter_app, length_app. lia. }
      rewrite Hs2, Hz1 in *. repeat case_match; lia. }
    split_and!; [done| |].
    + destruct (run_clientCalls_grow es2 w2) as [more ->].
      rewrite Hc2. set_solver.
    + intros Hq2 response t Htext.
      destruct (run_quiet es2 task w2 Hq2) as (Hl3 & _ & Hlt3);
        [by rewrite Hn2|].
      rewrite Ht2, lookup_insert_eq in Hl3.
      destruct (step_GenerateContent_settled task f (Fulfilled response) _ Hl3)
        as (Ht4 & Hn4 & Hc4 & _ & Hres).
      rewrite (generatePromptFromImage_text _ t Htext) in Hres.
      destruct Hres as (-> & -> & _).
      split_and!; [done|done|].
      intros es3. rewrite run_finished.
      * by rewrite (calls_of_same _ _ _ Hc4).
      * by rewrite Ht4, lookup_delete_eq.
      * by rewrite Hn4.
  - intros es1 reason Hq1. rewrite run_cons, run_snoc.
    fold w0. cbn zeta.
    destruct (Hquiet1 es1 Hq1) as (Hl1 & Hz1 & Hlt1).
    destruct (step_FileToBase64_rejected task f reason _ Hl1)
      as (Ht2 & Hn2 & Hc2 & Hs2 & _ & He2).
    split_and!; [done|done|].
    intros es2. rewrite run_finished.
    + by rewrite (calls_of_same _ _ _ Hc2).
    + by rewrite Ht2, lookup_delete_eq.
    + by rewrite Hn2.
Qed.

Lemma handleGeneratePrompt_calls_client_witness :
  let w := run [ImageChange (Some photo_png)] init in
  imageFile w = Some photo_png ∧
  calls_of 0
    (run [GeneratePrompt; FileToBase64Settled 0 (Fulfilled (lit "iVBORw0KGgo="))]
       w) = 1%nat.
Proof.
  split; [reflexivity|].
  pose proof (handleGeneratePrompt_calls_client
                (run [ImageChange (Some photo_png)] init) photo_png) as H.
  destruct H as (_ & H & _);
    [by exists [ImageChange (Some photo_png)] | reflexivity |].
  destruct (H [] (lit "iVBORw0KGgo=") []) as [H1 _]; [reflexivity|exact H1].
Defined.

(** C1 as stated fails.  With an image stored, a call of
    [handleGeneratePrompt] whose [await fileToBase64(imageFile)] rejects runs
    to its end (no suspended run is left) without having called the client:
    the [catch] block reports the failure instead. *)
Lemma encoding_rejected_no_client_call :
  let w := run [ImageChange (Some photo_png)] init in
  let w' := run [GeneratePrompt; FileToBase64Settled 0 (Rejected NonError)] w in
  imageFile w = Some photo_png ∧
  nextTask w = 0 ∧
  tasks w' = ∅ ∧
  calls_of 0 w' = 0%nat ∧
  clientCalls w' = [] ∧
  status w' = Error ∧
  error w' = lit "Failed to generate prompt: An unknown error occurred.".
Proof. vm_compute. done. Qed.

(** C4.  With an image stored, when generation is triggered, the image is
    encoded and the SDK call made by the client rejects with an [Error]
    whose message is "quota exceeded", the state is error and [error] is
    exactly "Failed to generate prompt: Gemini API Error: quota exceeded".
    Events that concern other runs may be interleaved at will. *)
Theorem handleGeneratePrompt_quota_exceeded
    (w : World) (f : File) (es1 es2 : list Event) (base64Image : jsstring) :
  imageFile w = Some f →
  let task := nextTask w in
  quiet task es1 = true →
  quiet task es2 = true →
  let w' :=
    run (GeneratePrompt :: es1 ++
         FileToBase64Settled task (Fulfilled base64Image) :: es2 ++
         [GenerateContentSettled task
            (Rejected (ErrorObject (lit "quota exceeded")))]) w in
  status w' = Error ∧
  error w' = lit "Failed to generate prompt: Gemini API Error: quota exceeded".
Proof.
  intros Himg task Hq1 Hq2.
  rewrite run_cons, run_app, run_cons, run_snoc. cbn zeta.
  destruct (step_GeneratePrompt f w Himg) as (Ht0 & Hn0 & _).
  set (w0 := step GeneratePrompt w) in *.
  destruct (run_quiet es1 task w0 Hq1) as (Hl1 & _ & Hlt1);
    [rewrite Hn0; subst task; lia|].
  rewrite Ht0, lookup_insert_eq in Hl1.
  destruct (step_FileToBase64_fulfilled task f base64Image _ Hl1)
    as (Ht2 & Hn2 & _).
  set (w2 := step _ (run es1 w0)) in *.
  destruct (run_quiet es2 task w2 Hq2) as (Hl3 & _); [by rewrite Hn2|].
  rewrite Ht2, lookup_insert_eq in Hl3.
  destruct (step_GenerateContent_settled task f
              (Rejected (ErrorObject (lit "quota exceeded"))) _ Hl3)
    as (_ & _ & _ & _ & Hres).
  rewrite generatePromptFromImage_service_error in Hres.
  destruct Hres as (-> & _ & ->). done.
Qed.

Lemma handleGeneratePrompt_quota_exceeded_witness :
  let w := run [ImageChange (Some photo_png)] init in
  imageFile w = Some photo_png ∧
  error
    (run [GeneratePrompt; CopyPrompt;
          FileToBase64Settled 0 (Fulfilled (lit "iVBORw0KGgo=")); Elapse 30;
          GenerateContentSettled 0
            (Rejected (ErrorObject (lit "quota exceeded")))] w)
  = lit "Failed to generate prompt: Gemini API Error: quota exceeded".
Proof.
  split; [reflexivity|].
  destruct (handleGeneratePrompt_quota_exceeded
              (run [ImageChange (Some photo_png)] init) photo_png
              [CopyPrompt] [Elapse 30] (lit "iVBORw0KGgo=")) as [_ H];
    [reflexivity | reflexivity | reflexivity | exact H].
Defined.

(** ** Copying the prompt *)

Lemma step_now e w : now (step e w) = now w + duration e.
Proof.
  through_render.
  destruct e as [file| |hasItems| |file| |t r|t api| | |ms]; cbn.
  11: { unfold elapse, andThen.
        destruct (List.filter (due _) _); [|rewrite fire_cons]; done. }
  all: unfold_cmds; cbn; repeat case_match; cbn; lia.
Qed.

(** An armed timer stays armed until the clock reaches its due time. *)
Lemma step_timer_armed e d w :
  d ∈ timers w → now w + duration e < d → d ∈ timers (step e w).
Proof.
  intros Hin Hlt. through_render.
  destruct e as [file| |hasItems| |file| |t r|t api| | |ms]; cbn.
  11: { unfold elapse, andThen.
        assert (d ∈ List.filter (λ d, negb (due (now w + ms) d)) (timers w)).
        { apply list_elem_of_In, filter_In. split; [by apply list_elem_of_In|].
          unfold due. cbn in Hlt. apply negb_true_iff, N.leb_gt. lia. }
        destruct (List.filter (due _) _); [|rewrite fire_cons]; done. }
  all: unfold_cmds; cbn; repeat case_match; cbn; try done.
  set_solver.
Qed.

(** When the clock reaches the due time of an armed timer, its callback has
    run by the end of the turn. *)
Lemma step_timer_fires ms d w :
  d ∈ timers w → d ≤ now w + ms → copySuccess (step (Elapse ms) w) = false.
Proof.
  intros Hin Hle. through_render. cbn. unfold elapse, andThen.
  assert (d ∈ List.filter (due (now w + ms)) (timers w)) as Hfired.
  { apply list_elem_of_In, filter_In. split; [by apply list_elem_of_In|].
    unfold due. apply N.leb_le. lia. }
  destruct (List.filter (due _) _) as [|d' ds];
    [by apply not_elem_of_nil in Hfired|].
  by rewrite fire_cons.
Qed.

Lemma run_timer_armed es d w :
  d ∈ timers w →
  now w + elapsed es < d →
  d ∈ timers (run es w) ∧ now (run es w) = now w + elapsed es.
Proof.
  revert w. induction es as [|e es IH]; intros w Hin Hlt.
  - cbn in *. split; [done|lia].
  - change (elapsed (e :: es)) with (duration e + elapsed es) in *.
    rewrite run_cons.
    destruct (IH (step e w)) as [Hin' Hnow'].
    + apply step_timer_armed; [done|lia].
    + rewrite step_now. lia.
    + split; [done|]. rewrite Hnow', step_now. lia.
Qed.

(** C9.  [handleCopyPrompt] with an empty [generatedPrompt] changes nothing:
    no state, no clipboard write, no timer.  With a non-empty
    [generatedPrompt] it writes exactly that text to the clipboard and sets
    [copySuccess]; the other state variables are untouched; and at the
    moment the clock has advanced by 2000 ms, [copySuccess] is false,
    whatever events happened in between. *)
Theorem handleCopyPrompt_feedback (w : World) :
  (generatedPrompt w = [] → handleCopyPrompt w = w) ∧
  (generatedPrompt w ≠ [] →
   let w' := step CopyPrompt w in
   clipboard w' = Some (generatedPrompt w) ∧
   copySuccess w' = true ∧
   generatedPrompt w' = generatedPrompt w ∧
   error w' = error w ∧ status w' = status w ∧ imageFile w' = imageFile w ∧
   copySuccess (step (Elapse 2000) w') = false ∧
   ∀ es ms,
     elapsed es + ms = 2000 → 0 < ms →
     copySuccess (run (es ++ [Elapse ms]) w') = false).
Proof.
  split.
  - intros Hempty. unfold handleCopyPrompt. by rewrite Hempty.
  - intros Hne w'.
    assert (truthy (generatedPrompt w) = true) as Htruthy
      by (by destruct (generatedPrompt w)).
    assert (now w + 2000 ∈ timers w' ∧ now w' = now w) as [Harmed Hnow].
    { subst w'. through_render. cbn. unfold handleCopyPrompt.
      rewrite Htruthy. cbn. split; [set_solver|done]. }
    split_and!.
    1-6: subst w'; through_render; cbn; unfold handleCopyPrompt;
         by rewrite Htruthy.
    + apply (step_timer_fires _ (now w + 2000)); [done|lia].
    + intros es ms Hsum Hpos. rewrite run_snoc.
      destruct (run_timer_armed es (now w + 2000) w') as [Hin Hclock];
        [done|lia|].
      apply (step_timer_fires _ (now w + 2000)); [done|lia].
Qed.

Lemma handleCopyPrompt_feedback_witness :
  let w := run [ImageChange (Some photo_png); GeneratePrompt;
                FileToBase64Settled 0 (Fulfilled (lit "iVBORw0KGgo="));
                GenerateContentSettled 0
                  (response_with (lit "A weathered red barn under a stormy sky"))]
               init in
  generatedPrompt w ≠ [] ∧
  clipboard (step CopyPrompt w) =
    Some (lit "A weathered red barn under a stormy sky") ∧
  copySuccess
    (run [Elapse 1200; CopyPrompt; Elapse 800] (step CopyPrompt w)) = false.
Proof.
  intros w. split; [done|].
  destruct (handleCopyPrompt_feedback w) as [_ H].
  destruct H as (Hclip & _ & _ & _ & _ & _ & _ & Hlater); [done|].
  split; [exact Hclip|].
  apply (Hlater [Elapse 1200; CopyPrompt] 800); reflexivity.
Defined.

(** ** The session variables across one turn *)

Lemma step_passive e w :
  passive e = true →
  imageFile (step e w) = imageFile w ∧
  generatedPrompt (step e w) = generatedPrompt w ∧
  error (step e w) = error w ∧
  status (step e w) = status w ∧
  tasks (step e w) = tasks w.
Proof.
  intros Hp. through_render.
  destruct e as [[file|]| |hasItems| |[file|]| |t r|t api| | |ms];
    try discriminate Hp; cbn.
  7: { unfold elapse, andThen.
       destruct (List.filter (due _) _); [|rewrite fire_cons]; done. }
  all: unfold_cmds; cbn; repeat case_match; done.
Qed.

Lemma step_Reset w :
  imageFile (step Reset w) = None ∧
  generatedPrompt (step Reset w) = [] ∧
  error (step Reset w) = [] ∧
  status (step Reset w) = Idle ∧
  tasks (step Reset w) = tasks w.
Proof.
  through_render. cbn. unfold handleReset, andThen.
  destruct (imageUrl w); done.
Qed.

(** Every event is a submission, a request for generation, a settlement, a
    reset, or passive. *)
Lemma event_cases e :
  (∃ file, submitted e = Some file) ∨ e = GeneratePrompt ∨
  (∃ task, settles e = Some task) ∨ e = Reset ∨ passive e = true.
Proof.
  destruct e as [[file|]| |hasItems| |[file|]| |t r|t api| | |ms]; cbn; eauto 6.
Qed.

Lemma step_settles e task w :
  settles e = Some task →
  imageFile (step e w) = imageFile w ∧
  (status (step e w) = status w ∨
   status (step e w) = Success ∨ status (step e w) = Error).
Proof.
  intros He. through_render.
  destruct e as [| | | | | |t r|t api| | |]; try discriminate He; cbn.
  - unfold fileToBase64_settled.
    destruct (tasks w !! t) as [[f|f]|]; [|auto..].
    destruct r; cbn; auto.
  - unfold generateContent_settled.
    destruct (tasks w !! t) as [[f|f]|]; [auto| |auto].
    destruct (Client.generatePromptFromImage api); cbn; auto.
Qed.

(** The handlers taken by themselves, in whatever state they are invoked:
    reset always moves to idle and clears the image, and it is the only
    handler that moves to idle; [imageFile] goes from a file to [null] in
    [handleReset], and in the refusing branch of [processFile], which the
    page reaches only with no image stored (see below). *)
Lemma imageFile_cleared_by (e : Event) (w : World) :
  (e = Reset → status (step e w) = Idle ∧ imageFile (step e w) = None) ∧
  (status (step e w) = Idle → status w ≠ Idle →
   e = Reset ∧ imageFile (step e w) = None) ∧
  (imageFile w ≠ None → imageFile (step e w) = None →
   (e = Reset ∧ status (step e w) = Idle) ∨
   (∃ file, submitted e = Some file ∧
            startsWith (type file) (lit "image/") = false ∧
            status (step e w) = Error)).
Proof.
  destruct (event_cases e) as [[file He]|[->|[[task He]|[->|He]]]].
  - destruct (step_submitted e file w He) as (-> & _ & _ & -> & _).
    unfold processFile.
    destruct (startsWith (type file) (lit "image/")) eqn:Hty; cbn.
    + split_and!; [by intros ->|done|done].
    + split_and!; [by intros ->|done|]. intros _ _. right. by exists file.
  - destruct (imageFile w) as [f|] eqn:Himg.
    + destruct (step_GeneratePrompt f w Himg) as (_ & _ & _ & -> & -> & _).
      done.
    + destruct (step_GeneratePrompt_no_image w Himg) as (-> & _). done.
  - destruct (step_settles e task w He) as [-> Hst].
    split_and!.
    + intros ->. done.
    + intros Hidle Hw. destruct Hst as [Hst|[Hst|Hst]]; congruence.
    + done.
  - destruct (step_Reset w) as (-> & _ & _ & -> & _). split_and!; auto.
  - destruct (step_passive e w He) as (-> & _ & _ & -> & _).
    split_and!; [by intros ->|done|done].
Qed.

(** On the rendered page the upload zone is offered only while no image is
    stored; there, reset is the one transition that clears a stored image. *)
Lemma imageFile_cleared_on_page (e : Event) (w : World) :
  (∀ file, submitted e = Some file → uploadZone_rendered w = true) →
  imageFile w ≠ None → imageFile (step e w) = None →
  e = Reset ∧ status (step e w) = Idle.
Proof.
  intros Hzone Himg Hcleared.
  destruct (event_cases e) as [[file He]|[->|[[task He]|[->|He]]]].
  - apply Hzone in He. unfold uploadZone_rendered in He.
    by destruct (imageFile w).
  - destruct (imageFile w) as [f|] eqn:Hw; [|done].
    destruct (step_GeneratePrompt f w Hw) as (_ & _ & _ & Hi & _). congruence.
  - destruct (step_settles e task w He) as [Hi _]. congruence.
  - destruct (step_Reset w) as (_ & _ & _ & -> & _). done.
  - destruct (step_passive e w He) as (Hi & _). congruence.
Qed.

(** The idle status is entered with the image cleared and left only with
    the status: no turn leaves the status idle with an image stored. *)
Lemma step_idle_no_image (e : Event) (w : World) :
  (status w = Idle → imageFile w = None) →
  status (step e w) = Idle → imageFile (step e w) = None.
Proof.
  intros Hinv.
  destruct (event_cases e) as [[file He]|[->|[[task He]|[->|He]]]].
  - destruct (step_submitted e file w He) as (-> & _ & _ & -> & _).
    unfold processFile. by destruct (startsWith _ _).
  - destruct (imageFile w) as [f|] eqn:Himg.
    + by destruct (step_GeneratePrompt f w Himg) as (_ & _ & _ & _ & -> & _).
    + by destruct (step_GeneratePrompt_no_image w Himg) as (-> & _).
  - destruct (step_settles e task w He) as [-> [-> | [-> | ->]]]; done.
  - by destruct (step_Reset w) as (-> & _).
  - by destruct (step_passive e w He) as (-> & _ & _ & -> & _).
Qed.

(** C8.  Across every transition of the controller as the page delivers it
    (a file reaches [processFile] only through the upload zone, which is
    rendered only while no image is stored), the stored image is cleared
    exactly when the status returns to idle.  No transition clears a stored
    image while moving to a status other than idle: the one that clears it
    is reset, and it moves to idle.  Every transition into idle is a reset
    and clears the image; and in every reachable state whose status is idle
    no image is stored. *)
Theorem image_cleared_exactly_on_idle :
  (∀ (e : Event) (w : World),
     (∀ file, submitted e = Some file → uploadZone_rendered w = true) →
     imageFile w ≠ None → imageFile (step e w) = None →
     e = Reset ∧ status (step e w) = Idle) ∧
  (∀ (e : Event) (w : World),
     status w ≠ Idle → status (step e w) = Idle →
     e = Reset ∧ imageFile (step e w) = None) ∧
  (∀ es : list Event,
     status (run es init) = Idle → imageFile (run es init) = None).
Proof.
  split_and!.
  - intros e w Hzone Himg Hcleared.
    destruct (event_cases e) as [[file He]|[->|[[task He]|[->|He]]]].
    + apply Hzone in He. unfold uploadZone_rendered in He.
      by destruct (imageFile w).
    + destruct (imageFile w) as [f|] eqn:Hw; [|done].
      destruct (step_GeneratePrompt f w Hw) as (_ & _ & _ & Hi & _).
      congruence.
    + destruct (step_settles e task w He) as [Hi _]. congruence.
    + destruct (step_Reset w) as (_ & _ & _ & -> & _). done.
    + destruct (step_passive e w He) as (Hi & _). congruence.
  - intros e w Hw Hidle.
    destruct (event_cases e) as [[file He]|[->|[[task He]|[->|He]]]].
    + destruct (step_submitted e file w He) as (_ & _ & _ & Hs & _).
      rewrite Hs in Hidle. unfold processFile in Hidle.
      by destruct (startsWith _ _).
    + destruct (imageFile w) as [f|] eqn:Himg.
      * destruct (step_GeneratePrompt f w Himg) as (_ & _ & _ & _ & Hs & _).
        congruence.
      * destruct (step_GeneratePrompt_no_image w Himg) as (Hs & _).
        congruence.
    + destruct (step_settles e task w He) as [_ [Hs|[Hs|Hs]]]; congruence.
    + destruct (step_Reset w) as (-> & _). done.
    + destruct (step_passive e w He) as (_ & _ & _ & Hs & _). congruence.
  - intros es. induction es as [|e es IH] using rev_ind; [done|].
    rewrite run_snoc. by apply step_idle_no_image.
Qed.

Lemma image_cleared_exactly_on_idle_witness :
  let w := run [ImageChange (Some photo_png); GeneratePrompt] init in
  imageFile w ≠ None ∧
  status w ≠ Idle ∧
  imageFile (step Reset w) = None ∧
  status (step Reset w) = Idle.
Proof.
  intros w.
  assert (imageFile w ≠ None) as Himg by done.
  assert (imageFile (step Reset w) = None) as Hcleared by reflexivity.
  destruct image_cleared_exactly_on_idle as (H & _ & _).
  destruct (H Reset w) as [_ Hidle]; [intros file [=] | done | done |].
  split_and!; [done | by intros [=] | done | exact Hidle].
Defined.

(** ** [generatedPrompt] against [error] *)

(** What a settlement can do to the session variables. *)
Lemma step_settles_cases e task w :
  settles e = Some task →
  (tasks (step e w) = tasks w ∧ imageFile (step e w) = imageFile w ∧
   generatedPrompt (step e w) = generatedPrompt w ∧
   error (step e w) = error w) ∨
  (∃ f, tasks w !! task = Some (fileToBase64 f) ∧
        tasks (step e w) = <[task := generateContent f]> (tasks w) ∧
        imageFile (step e w) = imageFile w ∧
        generatedPrompt (step e w) = generatedPrompt w ∧
        error (step e w) = error w) ∨
  (∃ a, tasks w !! task = Some a ∧
        tasks (step e w) = delete task (tasks w) ∧
        imageFile (step e w) = imageFile w ∧
        (generatedPrompt (step e w) = generatedPrompt w ∨
         error (step e w) = error w)).
Proof.
  intros He.
  destruct e as [| | | | | |t r|t api| | |]; try discriminate He;
    cbn in He; injection He as He; subst t.
  - destruct (tasks w !! task) as [[f|f]|] eqn:Ht.
    + destruct r as [base64Image|err].
      * right. left. exists f.
        destruct (step_FileToBase64_fulfilled task f base64Image w Ht)
          as (? & _ & _ & _ & ? & _ & ? & ?). done.
      * right. right. exists (fileToBase64 f).
        destruct (step_FileToBase64_rejected task f err w Ht)
          as (? & _ & _ & _ & ? & _).
        split_and!; [done|done| |by left].
        through_render. cbn. unfold fileToBase64_settled. by rewrite Ht.
    + left. through_render. cbn. unfold fileToBase64_settled. by rewrite Ht.
    + left. through_render. cbn. unfold fileToBase64_settled. by rewrite Ht.
  - destruct (tasks w !! task) as [[f|f]|] eqn:Ht.
    + left. through_render. cbn. unfold generateContent_settled.
      by rewrite Ht.
    + right. right. exists (generateContent f).
      destruct (step_GenerateContent_settled task f api w Ht)
        as (? & _ & _ & ? & Hres).
      split_and!; [done|done|done|].
      destruct (Client.generatePromptFromImage api); [right|left]; tauto.
    + left. through_render. cbn. unfold generateContent_settled.
      by rewrite Ht.
Qed.

Lemma step_outputs_exclusive e w :
  allowed e w = true → outputs_exclusive w → outputs_exclusive (step e w).
Proof.
  intros Hallowed Hinv. unfold outputs_exclusive.
  destruct (event_cases e) as [[file He]|[->|[[task He]|[->|He]]]].
  - (* a file is submitted: the upload zone is rendered, no image is stored *)
    assert (imageFile w = None) as Himg.
    { destruct e as [[?|]| | | |[?|]| | | | | |]; try discriminate He;
        cbn in Hallowed; unfold uploadZone_rendered in Hallowed;
        by destruct (imageFile w). }
    destruct Hinv as [(Ht & Hnone & _)|(t & a & _ & [f Hf] & _)];
      [|congruence].
    destruct (step_submitted e file w He) as (-> & -> & -> & _ & -> & _).
    left. split; [done|]. unfold processFile.
    destruct (startsWith _ _); cbn; auto.
  - (* generation is requested: no run is suspended *)
    cbn in Hallowed. apply bool_decide_eq_true in Hallowed.
    destruct Hinv as [(_ & Hnone & _)|(t & a & Ht & _)];
      [|by rewrite Ht in Hallowed; apply map_non_empty_singleton in Hallowed].
    destruct (imageFile w) as [f|] eqn:Himg.
    + destruct (step_GeneratePrompt f w Himg)
        as (-> & _ & _ & -> & _ & -> & ->).
      right. exists (nextTask w), (fileToBase64 f).
      rewrite Hallowed. split_and!; [by rewrite insert_empty|by eexists|done..].
    + destruct (step_GeneratePrompt_no_image w Himg)
        as (_ & _ & -> & -> & _ & -> & _).
      left. auto.
  - (* a promise settles *)
    destruct (step_settles_cases e task w He) as
      [(-> & -> & -> & ->)|[(f & Hl & -> & -> & -> & ->)
      |(a & Hl & -> & -> & Hout)]]; [done| |].
    + destruct Hinv as [(Ht & _)|(t & a & Ht & Himg & Hp & Herr)];
        [by rewrite Ht, lookup_empty in Hl|].
      rewrite Ht in Hl. apply lookup_singleton_Some in Hl as [-> ->].
      right. exists task, (generateContent f).
      by rewrite Ht, insert_singleton_eq.
    + destruct Hinv as [(Ht & _)|(t & a' & Ht & [f Himg] & Hp & Herr)];
        [by rewrite Ht, lookup_empty in Hl|].
      rewrite Ht in Hl. apply lookup_singleton_Some in Hl as [-> ->].
      left. rewrite Ht, delete_singleton_eq, Himg.
      split_and!; [done|done|]. destruct Hout as [->| ->]; auto.
  - (* reset: no run is suspended *)
    cbn in Hallowed. apply bool_decide_eq_true in Hallowed.
    destruct (step_Reset w) as (-> & -> & -> & _ & ->). left. auto.
  - destruct (step_passive e w He) as (-> & -> & -> & _ & ->). exact Hinv.
Qed.

Lemma run_outputs_exclusive es w :
  orderly es w = true → outputs_exclusive w → outputs_exclusive (run es w).
Proof.
  revert w. induction es as [|e es IH]; intros w Hord Hinv; [done|].
  cbn in Hord. apply andb_prop in Hord as [Hallowed Hord].
  rewrite run_cons. by apply IH, step_outputs_exclusive.
Qed.

(** C7, as the code has it.  In every state reached from the initial idle
    state by a sequence of events in which a file is submitted only while no
    image is stored (the upload zone is rendered only then) and neither a
    generation nor a reset is requested while a generation is pending,
    [generatedPrompt] and [error] are not both non-empty. *)
Theorem outputs_never_both (es : list Event) :
  orderly es init = true →
  generatedPrompt (run es init) = [] ∨ error (run es init) = [].
Proof.
  intros Hord.
  destruct (run_outputs_exclusive es init Hord)
    as [(_ & _ & H)|(_ & _ & _ & _ & H & _)].
  - left. cbn. auto.
  - exact H.
  - by left.
Qed.

Lemma outputs_never_both_witness :
  let es := [Drop (Some notes_txt); ImageChange (Some photo_png);
             GeneratePrompt; CopyPrompt;
             FileToBase64Settled 0 (Fulfilled (lit "iVBORw0KGgo="));
             GenerateContentSettled 0
               (response_with (lit "A weathered red barn under a stormy sky"));
             GeneratePrompt; FileToBase64Settled 1 (Rejected NonError)] in
  orderly es init = true ∧
  (generatedPrompt (run es init) = [] ∨ error (run es init) = []).
Proof.
  intros es. split; [reflexivity|].
  apply (outputs_never_both es). reflexivity.
Defined.

(** C7 as stated fails.  After a successful generation the text stays in
    [generatedPrompt]; submitting a file that is not an image then sets
    [error] without clearing it. *)
Lemma outputs_both_set :
  let w := run [ImageChange (Some photo_png); GeneratePrompt;
                FileToBase64Settled 0 (Fulfilled (lit "iVBORw0KGgo="));
                GenerateContentSettled 0
                  (response_with (lit "A weathered red barn under a stormy sky"));
                Drop (Some notes_txt)] init in
  generatedPrompt w = lit "A weathered red barn under a stormy sky" ∧
  error w = lit "Please select a valid image file." ∧
  generatedPrompt w ≠ [] ∧ error w ≠ [].
Proof. vm_compute. done. Qed.

(** The same state is reached through handlers the rendered page offers at
    each step, when the image is removed while a generation is pending and
    the response arrives afterwards. *)
Lemma stale_response_sets_both_outputs :
  let w1 := run [ImageChange (Some photo_png)] init in
  let w2 := step GeneratePrompt w1 in
  let w3 := step (FileToBase64Settled 0 (Fulfilled (lit "iVBORw0KGgo="))) w2 in
  let w4 := step Reset w3 in
  let w5 := step (GenerateContentSettled 0
                    (response_with (lit "A weathered red barn"))) w4 in
  let w6 := step (Drop (Some notes_txt)) w5 in
  uploadZone_rendered init = true ∧
  generateButton_rendered w1 = true ∧
  removeButton_rendered w3 = true ∧
  uploadZone_rendered w5 = true ∧
  generatedPrompt w6 ≠ [] ∧ error w6 ≠ [].
Proof. vm_compute. done. Qed.

(** ** Status against outputs, for every sequence of events *)

Lemma lit_app_nonempty (s : string) (m : jsstring) :
  s ≠ EmptyString → lit s ++ m ≠ [].
Proof. destruct s; [done|]. intros _. discriminate. Qed.

Lemma lit_nonempty (s : string) : s ≠ EmptyString → lit s ≠ [].
Proof. destruct s; [done|]. intros _. discriminate. Qed.

Lemma step_settles_status e task w :
  settles e = Some task →
  (status (step e w) = status w ∧
   generatedPrompt (step e w) = generatedPrompt w ∧
   error (step e w) = error w) ∨
  status (step e w) = Success ∨
  (status (step e w) = Error ∧ error (step e w) ≠ []).
Proof.
  intros He. through_render.
  destruct e as [| | | | | |t r|t api| | |]; try discriminate He; cbn.
  - unfold fileToBase64_settled.
    destruct (tasks w !! t) as [[f|f]|]; [|auto..].
    destruct r; cbn; [auto|].
    right. right. split; [done|]. by apply lit_app_nonempty.
  - unfold generateContent_settled.
    destruct (tasks w !! t) as [[f|f]|]; [auto| |auto].
    destruct (Client.generatePromptFromImage api); cbn; [auto|].
    right. right. split; [done|]. by apply lit_app_nonempty.
Qed.

Lemma step_status_outputs e w : status_outputs w → status_outputs (step e w).
Proof.
  intros Hinv. unfold status_outputs in *.
  destruct (event_cases e) as [[file He]|[->|[[task He]|[->|He]]]].
  - destruct (step_submitted e file w He) as (_ & -> & -> & -> & _).
    unfold processFile. destruct (startsWith _ _); cbn; [done|].
    by apply lit_nonempty.
  - destruct (imageFile w) as [f|] eqn:Himg.
    + destruct (step_GeneratePrompt f w Himg)
        as (_ & _ & _ & _ & -> & -> & ->). done.
    + destruct (step_GeneratePrompt_no_image w Himg) as (-> & -> & _).
      by apply lit_nonempty.
  - destruct (step_settles_status e task w He)
      as [(-> & -> & ->)|[->|[-> Herr]]]; done.
  - destruct (step_Reset w) as (_ & -> & -> & -> & _). done.
  - destruct (step_passive e w He) as (_ & -> & -> & -> & _). done.
Qed.

(** X10.  In every reachable state: both outputs are empty in the idle,
    previewing and generating states, [error] is non-empty in the error
    state, and the status is never [Uploading]. *)
Lemma reachable_status_outputs w : reachable w → status_outputs w.
Proof.
  revert w. apply reachable_ind; [done|].
  intros e w _. apply step_status_outputs.
Qed.

(** * Further properties *)

(** ** What the controller stores after the client answers *)

Lemma trim_nil : trim [] = [].
Proof. reflexivity. Qed.

Lemma trimStart_whitespace t :
  forallb isWhiteSpace t = true → trimStart t = [].
Proof.
  induction t as [|c t IH]; [done|]. cbn.
  intros [Hc Ht]%andb_prop. rewrite Hc. by apply IH.
Qed.

Lemma trim_whitespace t : forallb isWhiteSpace t = true → trim t = [].
Proof. intros Ht. unfold trim. by rewrite trimStart_whitespace. Qed.

(** A settlement leaves [generatedPrompt] alone or stores a trimmed text. *)
Lemma step_settles_prompt e task w :
  settles e = Some task →
  generatedPrompt (step e w) = generatedPrompt w ∨
  ∃ t, generatedPrompt (step e w) = trim t.
Proof.
  intros He. through_render.
  destruct e as [| | | | | |t r|t api| | |]; try discriminate He; cbn.
  - unfold fileToBase64_settled.
    destruct (tasks w !! t) as [[f|f]|]; [|auto..]. destruct r; cbn; auto.
  - unfold generateContent_settled.
    destruct (tasks w !! t) as [[f|f]|]; [auto| |auto].
    destruct (generatePromptFromImage_cases api)
      as [(response & t' & _ & _ & ->)|[message ->]]; cbn; eauto.
Qed.

Lemma step_trimmed e w :
  trim (generatedPrompt w) = generatedPrompt w →
  trim (generatedPrompt (step e w)) = generatedPrompt (step e w).
Proof.
  intros Hw.
  destruct (event_cases e) as [[file He]|[->|[[task He]|[->|He]]]].
  - destruct (step_submitted e file w He) as (_ & -> & _).
    unfold processFile. destruct (startsWith _ _); cbn; done.
  - destruct (imageFile w) as [f|] eqn:Himg.
    + destruct (step_GeneratePrompt f w Himg) as (_ & _ & _ & _ & _ & -> & _).
      done.
    + destruct (step_GeneratePrompt_no_image w Himg) as (_ & _ & -> & _). done.
  - destruct (step_settles_prompt e task w He) as [->|[t ->]]; [done|].
    apply trim_idempotent.
  - destruct (step_Reset w) as (_ & -> & _). done.
  - destruct (step_passive e w He) as (_ & -> & _). done.
Qed.

(** X1.  Whatever the sequence of events, [generatedPrompt] is a trimmed
    string: trimming it again changes nothing, and it neither starts nor
    ends with a white-space character. *)
Theorem generatedPrompt_trimmed (es : list Event) :
  trim (generatedPrompt (run es init)) = generatedPrompt (run es init) ∧
  (∀ c rest, generatedPrompt (run es init) = c :: rest →
             isWhiteSpace c = false) ∧
  (∀ c rest, generatedPrompt (run es init) = rest ++ [c] →
             isWhiteSpace c = false).
Proof.
  assert (trim (generatedPrompt (run es init)) = generatedPrompt (run es init))
    as Hfix.
  { induction es as [|e es IH] using rev_ind; [done|].
    rewrite run_snoc. by apply step_trimmed. }
  destruct (trim_spec (generatedPrompt (run es init)))
    as (leading & trailing & _ & _ & _ & Hhead & Hlast).
  rewrite Hfix in Hhead, Hlast. done.
Qed.

(** X2.  When the promise of [generatePromptFromImage] settles, the
    controller ends in one of four ways, by the outcome of the SDK call:
    success with the trimmed text; or error with the message
    "Failed to generate prompt: Gemini API Error: " followed by the
    empty-response text, or by the message of the [Error] the SDK rejected
    with; or, for a rejection that is not an [Error], the client's own
    unknown-error text.  The controller's fallback "An unknown error
    occurred." is never what a client failure shows. *)
Theorem generateContent_settled_outcomes
    (w : World) (task : N) (f : File)
    (api : settled (option Client.GenerateContentResponse)) :
  tasks w !! task = Some (generateContent f) →
  let w' := step (GenerateContentSettled task api) w in
  match api with
  | Fulfilled response =>
      match Client.response_text response with
      | Some t =>
          status w' = Success ∧ generatedPrompt w' = trim t ∧
          error w' = error w
      | None =>
          status w' = Error ∧ generatedPrompt w' = generatedPrompt w ∧
          error w' = lit "Failed to generate prompt: Gemini API Error: The API response was empty or invalid."
      end
  | Rejected (ErrorObject message) =>
      status w' = Error ∧ generatedPrompt w' = generatedPrompt w ∧
      error w' = lit "Failed to generate prompt: Gemini API Error: " ++ message
  | Rejected NonError =>
      status w' = Error ∧ generatedPrompt w' = generatedPrompt w ∧
      error w' = lit "Failed to generate prompt: An unknown error occurred while communicating with the Gemini API."
  end ∧
  (status w' = Error →
   error w' ≠ lit "Failed to generate prompt: An unknown error occurred.").
Proof.
  intros Ht w'.
  destruct (step_GenerateContent_settled task f api w Ht)
    as (_ & _ & _ & _ & Hres).
  fold w' in Hres.
  destruct api as [response|[message|]].
  - unfold Client.generatePromptFromImage in Hres. cbn in Hres.
    destruct (Client.response_text response) as [t|]; cbn in Hres.
    + split; [exact Hres|]. destruct Hres as (-> & _). done.
    + destruct Hres as (-> & -> & ->). done.
  - rewrite generatePromptFromImage_service_error in Hres.
    destruct Hres as (-> & -> & ->). split; [done|]. discriminate.
  - destruct Hres as (-> & -> & ->). done.
Qed.

Lemma generateContent_settled_outcomes_witness :
  let w := run [ImageChange (Some photo_png); GeneratePrompt;
                FileToBase64Settled 0 (Fulfilled (lit "iVBORw0KGgo="))] init in
  tasks w !! 0 = Some (generateContent photo_png) ∧
  error (step (GenerateContentSettled 0
                 (Rejected (ErrorObject (lit "429 Too Many Requests")))) w) =
  lit "Failed to generate prompt: Gemini API Error: 429 Too Many Requests".
Proof.
  intros w. split; [reflexivity|].
  destruct (generateContent_settled_outcomes w 0 photo_png
              (Rejected (ErrorObject (lit "429 Too Many Requests"))))
    as [(_ & _ & H) _]; [reflexivity | exact H].
Defined.

(** X3.  A response whose text consists of white space only passes the
    client's test for a non-empty text and is trimmed to the empty string:
    the controller ends in the success state with an empty
    [generatedPrompt].  In that state the page renders neither of the two
    buttons that call [handleGeneratePrompt], and [handleCopyPrompt] does
    nothing. *)
Theorem whitespace_only_response
    (w : World) (task : N) (f : File) (t : jsstring) :
  tasks w !! task = Some (generateContent f) →
  t ≠ [] →
  forallb isWhiteSpace t = true →
  let w' := step (GenerateContentSettled task (response_with t)) w in
  status w' = Success ∧
  generatedPrompt w' = [] ∧
  generateButton_rendered w' = false ∧
  handleCopyPrompt w' = w'.
Proof.
  intros Ht Hne Hws w'.
  destruct (step_GenerateContent_settled task f (response_with t) w Ht)
    as (_ & _ & _ & _ & Hres).
  fold w' in Hres. unfold response_with in Hres.
  rewrite (generatePromptFromImage_text _ t) in Hres
    by (cbn; by destruct t).
  rewrite (trim_whitespace t Hws) in Hres. destruct Hres as (Hs & Hp & _).
  split_and!; [done|done| |].
  - unfold generateButton_rendered. by rewrite Hs, Hp.
  - unfold handleCopyPrompt. by rewrite Hp.
Qed.

Lemma whitespace_only_response_witness :
  let w := run [ImageChange (Some photo_png); GeneratePrompt;
                FileToBase64Settled 0 (Fulfilled (lit "iVBORw0KGgo="))] init in
  let t := [32; 10; 9] in
  tasks w !! 0 = Some (generateContent photo_png) ∧
  t ≠ [] ∧ forallb isWhiteSpace t = true ∧
  status (step (GenerateContentSettled 0 (response_with t)) w) = Success ∧
  generatedPrompt (step (GenerateContentSettled 0 (response_with t)) w) = [].
Proof.
  intros w t. split_and!; [reflexivity|done|reflexivity|..];
    destruct (whitespace_only_response w 0 photo_png t)
      as (Hs & Hp & _); done.
Defined.

(** ** Only images reach the client *)

Lemma step_imageFile_cases e w :
  imageFile (step e w) = imageFile w ∨
  imageFile (step e w) = None ∨
  ∃ file, image_typed file ∧ imageFile (step e w) = Some file.
Proof.
  destruct (event_cases e) as [[file He]|[->|[[task He]|[->|He]]]].
  - destruct (step_submitted e file w He) as (-> & _).
    unfold processFile.
    destruct (startsWith (type file) (lit "image/")) eqn:Hty; cbn; eauto.
  - left. destruct (imageFile w) as [f|] eqn:Himg.
    + by destruct (step_GeneratePrompt f w Himg) as (_ & _ & _ & -> & _).
    + by destruct (step_GeneratePrompt_no_image w Himg) as (_ & _ & _ & -> & _).
  - left. by destruct (step_settles e task w He) as [-> _].
  - right. left. by destruct (step_Reset w) as (-> & _).
  - left. by destruct (step_passive e w He) as (-> & _).
Qed.

(** What one turn does to the suspended runs and to the record of client
    calls, with the file and the request involved. *)
Lemma step_tasks_exact e w :
  (tasks (step e w) = tasks w ∧ clientCalls (step e w) = clientCalls w) ∨
  (∃ f, e = GeneratePrompt ∧ imageFile w = Some f ∧
        tasks (step e w) = <[nextTask w := fileToBase64 f]> (tasks w) ∧
        clientCalls (step e w) = clientCalls w) ∨
  (∃ task f base64Image,
        e = FileToBase64Settled task (Fulfilled base64Image) ∧
        tasks w !! task = Some (fileToBase64 f) ∧
        tasks (step e w) = <[task := generateContent f]> (tasks w) ∧
        clientCalls (step e w) =
          clientCalls w ++ [(task, Client.request base64Image (type f))]) ∨
  (∃ task a, settles e = Some task ∧ tasks w !! task = Some a ∧
        tasks (step e w) = delete task (tasks w) ∧
        clientCalls (step e w) = clientCalls w).
Proof.
  destruct e as [file| |hasItems| |file| |t r|t api| | |ms].
  6: { destruct (imageFile w) as [f|] eqn:Himg.
       - right. left. exists f.
         destruct (step_GeneratePrompt f w Himg) as (? & _ & ? & _). done.
       - left. destruct (step_GeneratePrompt_no_image w Himg)
           as (_ & _ & _ & _ & ? & ? & _). done. }
  6: { destruct (tasks w !! t) as [[f|f]|] eqn:Ht.
       - destruct r as [base64Image|err].
         + right. right. left. exists t, f, base64Image.
           destruct (step_FileToBase64_fulfilled t f base64Image w Ht)
             as (? & _ & ? & _). done.
         + right. right. right. exists t. eexists.
           destruct (step_FileToBase64_rejected t f err w Ht)
             as (? & _ & ? & _). done.
       - left. through_render. cbn. unfold fileToBase64_settled.
         by rewrite Ht.
       - left. through_render. cbn. unfold fileToBase64_settled.
         by rewrite Ht. }
  6: { destruct (tasks w !! t) as [[f|f]|] eqn:Ht.
       - left. through_render. cbn. unfold generateContent_settled.
         by rewrite Ht.
       - right. right. right. exists t. eexists.
         destruct (step_GenerateContent_settled t f api w Ht)
           as (? & _ & ? & _). done.
       - left. through_render. cbn. unfold generateContent_settled.
         by rewrite Ht. }
  8: { left. through_render. cbn. unfold elapse, andThen.
       destruct (List.filter (due _) _); [|rewrite fire_cons]; done. }
  all: left; through_render; cbn; unfold_cmds; cbn; repeat case_match; done.
Qed.

Lemma step_images_only e w : images_only w → images_only (step e w).
Proof.
  intros (Himg & Htasks & Hcalls). split_and!.
  - intros f Hf.
    destruct (step_imageFile_cases e w) as [Heq|[Heq|(file & Hty & Heq)]];
      rewrite Heq in Hf; [by apply Himg|done|by simplify_eq].
  - intros task a.
    destruct (step_tasks_exact e w) as
      [(-> & _)|[(f & _ & Hf & -> & _)|[(t & f & b & _ & Hl & -> & _)
      |(t & a' & _ & _ & -> & _)]]].
    + apply Htasks.
    + intros [[_ <-]|[_ Hl]]%lookup_insert_Some; [by apply Himg|eauto].
    + intros [[_ <-]|[_ Hl']]%lookup_insert_Some; [|eauto].
      apply (Htasks t _ Hl).
    + intros [_ Hl]%lookup_delete_Some. eauto.
  - intros task rq.
    destruct (step_tasks_exact e w) as
      [(_ & ->)|[(f & _ & _ & _ & ->)|[(t & f & b & _ & Hl & _ & ->)
      |(t & a' & _ & _ & _ & ->)]]]; try apply Hcalls.
    intros [Hin|Hin]%elem_of_app; [eauto|].
    apply list_elem_of_singleton in Hin. simplify_eq.
    exists b, f. split; [done|]. apply (Htasks t _ Hl).
Qed.

Lemma reachable_images_only w : reachable w → images_only w.
Proof.
  revert w. apply reachable_ind; [|intros e w _; apply step_images_only].
  split_and!; [done| |].
  - intros task a H. cbn in H. by rewrite lookup_empty in H.
  - intros task rq H. cbn in H. by apply not_elem_of_nil in H.
Qed.

(** X4.  Whatever the sequence of events, every call the controller makes to
    [generatePromptFromImage] sends the model "gemini-2.5-flash" and exactly
    two parts, the image and the fixed instruction, and the media type of the
    image part starts with "image/": a file that [processFile] refused never
    reaches the client. *)
Theorem client_called_with_images_only
    (es : list Event) (task : N) (rq : Client.GenerateContentParameters) :
  (task, rq) ∈ clientCalls (run es init) →
  Client.model rq = lit "gemini-2.5-flash" ∧
  ∃ base64Image mimeType,
    Client.parts rq =
      [ Client.imagePart
          {| Client.data := base64Image; Client.mimeType := mimeType |};
        Client.textPart Client.instruction ] ∧
    startsWith mimeType (lit "image/") = true.
Proof.
  intros Hin.
  destruct (reachable_images_only (run es init)) as (_ & _ & Hcalls);
    [by exists es|].
  destruct (Hcalls task rq Hin) as (b & f & -> & Hty).
  split; [done|]. by exists b, (type f).
Qed.

Lemma client_called_with_images_only_witness :
  let es := [Drop (Some notes_txt); GeneratePrompt;
             ImageChange (Some photo_png); GeneratePrompt;
             FileToBase64Settled 0 (Fulfilled (lit "iVBORw0KGgo="))] in
  clientCalls (run es init) =
    [(0, Client.request (lit "iVBORw0KGgo=") (lit "image/png"))] ∧
  Client.model (Client.request (lit "iVBORw0KGgo=") (lit "image/png")) =
    lit "gemini-2.5-flash".
Proof.
  intros es. split; [reflexivity|].
  apply (client_called_with_images_only es 0).
  apply list_elem_of_singleton. reflexivity.
Defined.

(** ** Object URLs that are never released *)

Lemma handle_objectURLs e w :
  (objectURLs (handle e w) = objectURLs w ∧ nextURL (handle e w) = nextURL w) ∨
  (∃ url, e = Reset ∧ imageUrl w = Some url ∧
          objectURLs (handle e w) = objectURLs w ∖ {[url]} ∧
          nextURL (handle e w) = nextURL w).
Proof.
  destruct e as [file| |hasItems| |file| |task r|task api| | |ms]; cbn.
  10: { unfold handleReset, andThen, revokeObjectURL, skip.
        destruct (imageUrl w) as [url|]; cbn; [right; by exists url|by left]. }
  10: { left. unfold elapse, andThen.
        destruct (List.filter (due _) _); [|rewrite fire_cons]; done. }
  all: left; unfold_cmds; cbn; repeat case_match; done.
Qed.

(** Rendering only ever registers a URL, the next fresh one, and memoises
    either the URL it had or that fresh one. *)
Lemma render_objectURLs w :
  (objectURLs (render w) = objectURLs w ∧ nextURL (render w) = nextURL w ∧
   (imageUrl (render w) = imageUrl w ∨ imageUrl (render w) = None)) ∨
  (objectURLs (render w) = {[nextURL w]} ∪ objectURLs w ∧
   nextURL (render w) = nextURL w + 1 ∧
   imageUrl (render w) = Some (nextURL w)).
Proof.
  unfold render, createObjectURL. destruct (decide _); [auto|].
  destruct (imageFile w); cbn; auto.
Qed.

Lemma step_objectURL_revoked e w url :
  url ∈ objectURLs w →
  url ∉ objectURLs (step e w) →
  e = Reset ∧ imageUrl w = Some url.
Proof.
  intros Hin Hout. unfold step, andThen in Hout.
  assert (url ∉ objectURLs (handle e w)) as Hgone.
  { destruct (render_objectURLs (handle e w)) as [(Ho & _)|(Ho & _)];
      rewrite Ho in Hout; set_solver. }
  destruct (handle_objectURLs e w)
    as [(Ho & _)|(url' & -> & Hmemo & Ho & _)]; rewrite Ho in Hgone.
  - done.
  - split; [done|]. rewrite Hmemo. f_equal.
    destruct (decide (url' = url)); [done|set_solver].
Qed.

(** X5.  A registered object URL is revoked by no handler but
    [handleReset], and by [handleReset] only if it is the URL the memo holds
    at that moment. *)
Theorem objectURL_revoked_only_by_reset (e : Event) (w : World) (url : N) :
  url ∈ objectURLs w →
  url ∉ objectURLs (step e w) →
  e = Reset ∧ imageUrl w = Some url.
Proof. apply step_objectURL_revoked. Qed.

Lemma objectURL_revoked_only_by_reset_witness :
  let w := run [ImageChange (Some photo_png)] init in
  (0 ∈ objectURLs w) ∧ (0 ∉ objectURLs (step Reset w)) ∧ imageUrl w = Some 0.
Proof.
  intros w.
  assert (0 ∈ objectURLs w) as Hin by (vm_compute; set_solver).
  assert (0 ∉ objectURLs (step Reset w)) as Hout by (vm_compute; set_solver).
  split_and!; [done|done|].
  by destruct (objectURL_revoked_only_by_reset Reset w 0 Hin Hout).
Defined.

Lemma step_urls_fresh e w : urls_fresh w → urls_fresh (step e w).
Proof.
  intros [Hreg Hmemo]. unfold step, andThen.
  destruct (handle_memo e w) as (Hu & _).
  assert (∀ url, url ∈ objectURLs (handle e w) → url < nextURL (handle e w))
    as Hreg'.
  { destruct (handle_objectURLs e w) as [(-> & ->)|(u & _ & _ & -> & ->)];
      [done|]. intros url Hin. apply Hreg. set_solver. }
  assert (nextURL (handle e w) = nextURL w) as Hnext
    by (destruct (handle_objectURLs e w) as [(_ & ?)|(? & _ & _ & _ & ?)]; done).
  unfold urls_fresh.
  destruct (render_objectURLs (handle e w))
    as [(-> & -> & Hm)|(-> & -> & ->)]; split.
  - done.
  - intros url Hurl. destruct Hm as [Hm|Hm]; rewrite Hm in Hurl; [|done].
    rewrite Hu in Hurl. rewrite Hnext. by apply Hmemo.
  - intros url Hin. apply elem_of_union in Hin as [Hin|Hin].
    + apply elem_of_singleton in Hin. lia.
    + apply Hreg' in Hin. lia.
  - intros url [= <-]. lia.
Qed.

Lemma reachable_urls_fresh w : reachable w → urls_fresh w.
Proof.
  revert w. apply reachable_ind; [|intros e w _; apply step_urls_fresh].
  split; [intros url H; cbn in H; set_solver|done].
Qed.

(** A registered URL that the memo does not hold stays registered, and out
    of the memo, for ever. *)
Lemma step_orphan e w url :
  urls_fresh w →
  url ∈ objectURLs w → imageUrl w ≠ Some url →
  url ∈ objectURLs (step e w) ∧ imageUrl (step e w) ≠ Some url.
Proof.
  intros [Hreg Hmemo] Hin Hnot. unfold step, andThen.
  destruct (handle_memo e w) as (Hu & _).
  assert (url ∈ objectURLs (handle e w) ∧ nextURL (handle e w) = nextURL w)
    as [Hin' Hnext].
  { destruct (handle_objectURLs e w) as [(-> & ->)|(u & _ & Hm & -> & ->)];
      [done|]. split; [|done]. set_solver. }
  destruct (render_objectURLs (handle e w))
    as [(-> & _ & Hm)|(-> & _ & ->)].
  - split; [done|]. destruct Hm as [-> | ->]; [by rewrite Hu|done].
  - split; [set_solver|]. intros [= Heq]. apply Hreg in Hin. lia.
Qed.

Lemma run_orphan es w url :
  urls_fresh w →
  url ∈ objectURLs w → imageUrl w ≠ Some url →
  url ∈ objectURLs (run es w) ∧ imageUrl (run es w) ≠ Some url.
Proof.
  revert w. induction es as [|e es IH]; intros w Hfresh Hin Hnot; [done|].
  rewrite run_cons. destruct (step_orphan e w url Hfresh Hin Hnot).
  apply IH; [by apply step_urls_fresh|done..].
Qed.

(** X6.  [processFile] never releases the display handle of the image it
    replaces or discards.  In a reachable state with an image stored, once a
    file is submitted that is refused, or that is a different [File] object,
    the object URL the memo held stays registered whatever happens next, and
    the memo never holds it again: not even [handleReset] revokes it. *)
Theorem superseded_objectURL_never_revoked
    (es0 es : list Event) (e : Event) (f file : File) (url : N) :
  let w := run es0 init in
  imageFile w = Some f →
  imageUrl w = Some url →
  submitted e = Some file →
  startsWith (type file) (lit "image/") = false ∨ ref file ≠ ref f →
  url ∈ objectURLs (run (e :: es) w) ∧
  imageUrl (run (e :: es) w) ≠ Some url.
Proof.
  intros w Himg Hmemo He Hother.
  assert (reachable w) as Hreach by (by exists es0).
  destruct (reachable_memo_ok w Hreach) as [Hdep Hlive].
  pose proof (reachable_urls_fresh w Hreach) as Hfresh.
  rewrite Himg in Hdep, Hlive. destruct Hlive as (url' & Hmemo' & Hin).
  assert (url' = url) as -> by congruence.
  rewrite run_cons.
  apply run_orphan; [by apply step_urls_fresh| |].
  - destruct (decide (url ∈ objectURLs (step e w))) as [|Hout]; [done|].
    destruct (step_objectURL_revoked e w url Hin Hout) as [-> _].
    done.
  - unfold step, andThen.
    assert (ref <$> imageFile (handle e w) ≠ imageUrl_dep (handle e w)) as Hne.
    { destruct (handle_memo e w) as (_ & -> & _). rewrite Hdep.
      replace (imageFile (handle e w)) with (imageFile (processFile file w)).
      2: { destruct (step_submitted e file w He) as (<- & _).
           unfold step, andThen. by rewrite render_imageFile. }
      unfold processFile. destruct Hother as [Hty|Href].
      - by rewrite Hty.
      - destruct (startsWith _ _); cbn; [|done]. by intros [= ?]. }
    destruct Hfresh as [Hreg _]. apply Hreg in Hin.
    assert (nextURL (handle e w) = nextURL w) as Hnext
      by (destruct (handle_objectURLs e w) as [(_ & ?)|(? & _ & _ & _ & ?)];
          done).
    unfold render, createObjectURL. rewrite decide_False by done.
    destruct (imageFile (handle e w)); cbn; [|done].
    rewrite Hnext. intros [= Heq]. lia.
Qed.

Lemma superseded_objectURL_never_revoked_witness :
  let w := run [ImageChange (Some photo_png)] init in
  imageFile w = Some photo_png ∧
  imageUrl w = Some 0 ∧
  (0 ∈ objectURLs (run [Drop (Some notes_txt); Reset] w)).
Proof.
  intros w. split_and!; [reflexivity|reflexivity|].
  destruct (superseded_objectURL_never_revoked
              [ImageChange (Some photo_png)] [Reset]
              (Drop (Some notes_txt)) photo_png notes_txt 0) as [H _];
    [reflexivity | reflexivity | reflexivity | by left | exact H].
Defined.

(** ** The copy feedback always goes away *)

(** What one turn does to the clock, the timers and the feedback flag. *)
Lemma step_timing e w :
  match e with
  | CopyPrompt =>
      now (step e w) = now w ∧
      ((generatedPrompt w = [] ∧ timers (step e w) = timers w ∧
        copySuccess (step e w) = copySuccess w) ∨
       (generatedPrompt w ≠ [] ∧ timers (step e w) = timers w ++ [now w + 2000] ∧
        copySuccess (step e w) = true))
  | Elapse ms =>
      now (step e w) = now w + ms ∧
      timers (step e w) =
        List.filter (λ d, negb (due (now w + ms) d)) (timers w) ∧
      copySuccess (step e w) =
        match List.filter (due (now w + ms)) (timers w) with
        | [] => copySuccess w
        | _ :: _ => false
        end
  | _ =>
      now (step e w) = now w ∧ timers (step e w) = timers w ∧
      copySuccess (step e w) = copySuccess w
  end.
Proof.
  destruct e as [file| |hasItems| |file| |task r|task api| | |ms];
    through_render; cbn.
  9: { unfold handleCopyPrompt, andThen.
       destruct (generatedPrompt w) as [|c s]; cbn; [by auto|].
       split; [done|]. by right. }
  10: { unfold elapse, andThen.
        destruct (List.filter (due _) _); [|rewrite fire_cons]; done. }
  all: unfold_cmds; cbn; repeat case_match; done.
Qed.

Lemma filter_due_none t (l : list N) :
  List.filter (due t) l = [] → List.filter (λ d, negb (due t d)) l = l.
Proof.
  induction l as [|d l IH]; [done|]. cbn.
  destruct (due t d); [done|]. cbn. intros H. by rewrite IH.
Qed.

Lemma step_timers_ok e w : timers_ok w → timers_ok (step e w).
Proof.
  intros [Hdue Hon]. pose proof (step_timing e w) as Ht. unfold timers_ok.
  destruct e as [file| |hasItems| |file| |task r|task api| | |ms];
    try (destruct Ht as (-> & -> & ->); done).
  - destruct Ht as (-> & [(_ & -> & ->)|(_ & -> & ->)]); [done|].
    split; [|by destruct (timers w)].
    intros d [Hin|Hin]%elem_of_app; [by apply Hdue|].
    apply list_elem_of_singleton in Hin. lia.
  - destruct Ht as (-> & -> & ->). split.
    + intros d Hin. apply list_elem_of_In, filter_In in Hin as [Hin _].
      apply list_elem_of_In, Hdue in Hin. lia.
    + destruct (List.filter (due _) _) eqn:Hfired; [|done].
      rewrite (filter_due_none _ _ Hfired). exact Hon.
Qed.

Lemma reachable_timers_ok w : reachable w → timers_ok w.
Proof.
  revert w. apply reachable_ind; [|intros e w _; apply step_timers_ok].
  split; [intros d H; by apply not_elem_of_nil in H|done].
Qed.

(** X7.  The "Copied!" feedback never outlives 2000 ms: whatever the events
    so far (copies repeated at any moments included), once the clock has
    moved on by 2000 ms or more, [copySuccess] is false. *)
Theorem copySuccess_cleared_within_2000 (es : list Event) (ms : N) :
  2000 ≤ ms →
  copySuccess (run (es ++ [Elapse ms]) init) = false.
Proof.
  intros Hms. rewrite run_snoc.
  destruct (reachable_timers_ok (run es init)) as [Hdue Hon]; [by exists es|].
  destruct (timers (run es init)) as [|d ds] eqn:Htimers.
  - destruct (step_timing (Elapse ms) (run es init)) as (_ & _ & ->).
    rewrite Htimers. cbn.
    destruct (copySuccess (run es init)); [|done]. by destruct Hon.
  - apply (step_timer_fires ms d); [rewrite Htimers; left|].
    assert (d ≤ now (run es init) + 2000) by (apply Hdue; left). lia.
Qed.

Lemma copySuccess_cleared_within_2000_witness :
  let es := [ImageChange (Some photo_png); GeneratePrompt;
             FileToBase64Settled 0 (Fulfilled (lit "iVBORw0KGgo="));
             GenerateContentSettled 0 (response_with (lit "A red barn"));
             CopyPrompt; Elapse 1500; CopyPrompt; Elapse 1999; CopyPrompt] in
  copySuccess (run es init) = true ∧
  copySuccess (run (es ++ [Elapse 2000]) init) = false.
Proof.
  intros es. split; [reflexivity|].
  apply copySuccess_cleared_within_2000. lia.
Defined.

Lemma reachable_status_outputs_witness :
  let w := run [ImageChange (Some photo_png); GeneratePrompt;
                FileToBase64Settled 0 (Rejected NonError)] init in
  status w = Error ∧ status_outputs w.
Proof.
  intros w. split; [reflexivity|].
  apply reachable_status_outputs. by eexists.
Defined.

(** ** Reset does not cancel a generation *)

Lemma step_Reset_calls w :
  clientCalls (step Reset w) = clientCalls w ∧
  nextTask (step Reset w) = nextTask w.
Proof.
  through_render. cbn. unfold handleReset, andThen. by destruct (imageUrl w).
Qed.

(** X8.  [handleReset] does not stop a run of [handleGeneratePrompt] that
    awaits the encoding of the image: when the encoding fulfils after the
    reset, [generatePromptFromImage] is still called with the image that was
    removed, while the controller shows the idle state with no image. *)
Theorem reset_then_encoding_still_calls_client
    (w : World) (task : N) (f : File) (base64Image : jsstring) :
  tasks w !! task = Some (fileToBase64 f) →
  let w' := run [Reset; FileToBase64Settled task (Fulfilled base64Image)] w in
  clientCalls w' =
    clientCalls w ++ [(task, Client.request base64Image (type f))] ∧
  tasks w' !! task = Some (generateContent f) ∧
  imageFile w' = None ∧
  status w' = Idle.
Proof.
  intros Ht. cbn zeta. unfold run. cbn [foldl].
  destruct (step_Reset w) as (Hi & _ & _ & Hs & Hk).
  destruct (step_Reset_calls w) as [Hc _].
  destruct (step_FileToBase64_fulfilled task f base64Image (step Reset w))
    as (-> & _ & -> & _ & -> & -> & _); [by rewrite Hk|].
  rewrite Hc, Hi, Hs, lookup_insert_eq. done.
Qed.

Lemma reset_then_encoding_still_calls_client_witness :
  let w := run [ImageChange (Some photo_png); GeneratePrompt] init in
  tasks w !! 0 = Some (fileToBase64 photo_png) ∧
  clientCalls
    (run [Reset; FileToBase64Settled 0 (Fulfilled (lit "iVBORw0KGgo="))] w) =
  [(0, Client.request (lit "iVBORw0KGgo=") (lit "image/png"))].
Proof.
  intros w. split; [reflexivity|].
  destruct (reset_then_encoding_still_calls_client
              w 0 photo_png (lit "iVBORw0KGgo=")) as [H _];
    [reflexivity | exact H].
Defined.

(** X9.  [handleReset] does not stop a run of [handleGeneratePrompt] that
    awaits the client either: the answer that arrives after the reset is
    stored as if nothing had happened.  The controller is then in the
    success state with the trimmed text and no image, and the page renders
    the upload zone again. *)
Theorem reset_then_response_still_stored
    (w : World) (task : N) (f : File)
    (response : option Client.GenerateContentResponse) (t : jsstring) :
  tasks w !! task = Some (generateContent f) →
  Client.response_text response = Some t →
  let w' := run [Reset; GenerateContentSettled task (Fulfilled response)] w in
  status w' = Success ∧
  generatedPrompt w' = trim t ∧
  error w' = [] ∧
  imageFile w' = None ∧
  uploadZone_rendered w' = true.
Proof.
  intros Ht Htext. cbn zeta. unfold run. cbn [foldl].
  destruct (step_Reset w) as (Hi & _ & He & _ & Hk).
  destruct (step_GenerateContent_settled task f (Fulfilled response)
              (step Reset w)) as (_ & _ & _ & Hi' & Hres); [by rewrite Hk|].
  rewrite (generatePromptFromImage_text _ t Htext) in Hres.
  destruct Hres as (-> & -> & ->). rewrite Hi in Hi'.
  unfold uploadZone_rendered. rewrite Hi', He. done.
Qed.

Lemma reset_then_response_still_stored_witness :
  let w := run [ImageChange (Some photo_png); GeneratePrompt;
                FileToBase64Settled 0 (Fulfilled (lit "iVBORw0KGgo="))] init in
  let w' := run [Reset; GenerateContentSettled 0
                          (response_with (lit " A red barn "))] w in
  tasks w !! 0 = Some (generateContent photo_png) ∧
  status w' = Success ∧ generatedPrompt w' = lit "A red barn" ∧
  imageFile w' = None.
Proof.
  intros w w'. split; [reflexivity|].
  destruct (reset_then_response_still_stored w 0 photo_png
              (Some {| Client.text := Some (lit " A red barn ") |})
              (lit " A red barn ")) as (Hs & Hp & _ & Hi & _);
    [reflexivity | reflexivity | exact (conj Hs (conj Hp Hi))].
Defined.

(** ** Status against the stored image and the suspended runs *)

(** A settlement either keeps the status and the suspended runs (but for a
    run that moves on to await the client), or ends in success or error. *)
Lemma step_settles_status_tasks e task w :
  settles e = Some task →
  imageFile (step e w) = imageFile w ∧
  ((status (step e w) = status w ∧
    (tasks (step e w) = tasks w ∨
     ∃ a, tasks (step e w) = <[task := a]> (tasks w))) ∨
   status (step e w) = Success ∨ status (step e w) = Error).
Proof.
  intros He. through_render.
  destruct e as [| | | | | |t r|t api| | |]; try discriminate He;
    cbn in He; injection He as He; subst t; cbn.
  - unfold fileToBase64_settled.
    destruct (tasks w !! task) as [[f|f]|]; [|auto..].
    destruct r; cbn; [|auto]. split; [done|]. left. split; [done|].
    right. by eexists.
  - unfold generateContent_settled.
    destruct (tasks w !! task) as [[f|f]|]; [auto| |auto].
    destruct (Client.generatePromptFromImage api); cbn; auto.
Qed.

Lemma step_status_image e w : status_image w → status_image (step e w).
Proof.
  intros Hinv. unfold status_image in *.
  destruct (event_cases e) as [[file He]|[->|[[task He]|[->|He]]]].
  - destruct (step_submitted e file w He) as (-> & _ & _ & -> & _).
    unfold processFile. destruct (startsWith _ _); cbn; [by eexists|done].
  - destruct (imageFile w) as [f|] eqn:Himg.
    + destruct (step_GeneratePrompt f w Himg) as (-> & _ & _ & -> & -> & _).
      split; [by eexists|]. apply insert_non_empty.
    + destruct (step_GeneratePrompt_no_image w Himg) as (-> & _). done.
  - destruct (step_settles_status_tasks e task w He)
      as (-> & [(-> & Htasks)|[-> | ->]]); [|done..].
    destruct (status w); try done.
    destruct Hinv as [Himg Hne]. split; [done|].
    destruct Htasks as [->|[a ->]]; [done|apply insert_non_empty].
  - destruct (step_Reset w) as (-> & _ & _ & -> & _). done.
  - destruct (step_passive e w He) as (-> & _ & _ & -> & ->). done.
Qed.

(** X11.  In every reachable state: no image is stored in the idle state; an
    image is stored in the previewing and generating states; and in the
    generating state a run of [handleGeneratePrompt] is suspended, so that
    the status leaves generating as soon as the pending promises settle. *)
Theorem reachable_status_image (w : World) : reachable w → status_image w.
Proof.
  revert w. apply reachable_ind; [done|].
  intros e w _. apply step_status_image.
Qed.

Lemma reachable_status_image_witness :
  let w := run [ImageChange (Some photo_png); GeneratePrompt;
                Drop (Some photo_png); GeneratePrompt;
                FileToBase64Settled 0 (Rejected NonError); GeneratePrompt] init in
  status w = Generating ∧ status_image w.
Proof.
  intros w. split; [reflexivity|].
  apply reachable_status_image. by eexists.
Defined.

(** ** What the page shows *)

(** X12.  In every reachable state the page renders exactly one of the
    upload zone and the image preview with its "Remove Image" button; and
    the URL the preview displays is a registered object URL, never one that
    has been revoked. *)
Theorem upload_zone_or_preview (es : list Event) :
  uploadZone_rendered (run es init) = negb (removeButton_rendered (run es init)) ∧
  match imageUrl (run es init) with
  | Some url => url ∈ objectURLs (run es init)
  | None => True
  end.
Proof.
  destruct (reachable_memo_ok (run es init)) as [_ Hmemo]; [by exists es|].
  unfold uploadZone_rendered, removeButton_rendered.
  destruct (imageFile (run es init)).
  - destruct Hmemo as (url & -> & Hin). done.
  - rewrite Hmemo. done.
Qed.

(** ** The drag flag *)

Lemma render_isDragging w : isDragging (render w) = isDragging w.
Proof.
  unfold render, createObjectURL. destruct (decide _); [done|].
  destruct (imageFile w); done.
Qed.

(** X13.  [isDragging] is set by a drag-enter that carries items, cleared by
    a drag-leave and by every drop (with a file the controller accepts, with
    one it refuses, or with none), and touched by no other handler; the
    drag handlers that receive no file leave the image, both outputs and the
    status as they are. *)
Theorem isDragging_follows_drag_events (e : Event) (w : World) :
  isDragging (step e w) =
    match e with
    | DragEnter true => true
    | DragLeave | Drop _ => false
    | _ => isDragging w
    end ∧
  match e with
  | DragOver | DragEnter _ | DragLeave | Drop None =>
      imageFile (step e w) = imageFile w ∧
      generatedPrompt (step e w) = generatedPrompt w ∧
      error (step e w) = error w ∧
      status (step e w) = status w
  | _ => True
  end.
Proof.
  split.
  - unfold step, andThen. rewrite render_isDragging.
    destruct e as [file| |hasItems| |file| |task r|task api| | |ms]; cbn.
    11: { unfold elapse, andThen.
          destruct (List.filter (due _) _); [|rewrite fire_cons]; done. }
    all: unfold_cmds; cbn; repeat case_match; done.
  - destruct e as [file| |hasItems| |[file|]| |task r|task api| | |ms];
      try done;
      match goal with
      | |- context [step ?e w] =>
          destruct (step_passive e w) as (? & ? & ? & ? & _); [done|done]
      end.
Qed.

(** ** What reaches the clipboard *)

Lemma step_clipboard e w :
  clipboard (step e w) = clipboard w ∨
  (e = CopyPrompt ∧ generatedPrompt w ≠ [] ∧
   clipboard (step e w) = Some (generatedPrompt w)).
Proof.
  through_render.
  destruct e as [file| |hasItems| |file| |task r|task api| | |ms]; cbn.
  9: { unfold handleCopyPrompt, andThen.
       destruct (generatedPrompt w) as [|c s]; cbn; [by left|by right]. }
  10: { left. unfold elapse, andThen.
        destruct (List.filter (due _) _); [|rewrite fire_cons]; done. }
  all: left; unfold_cmds; cbn; repeat case_match; done.
Qed.

Lemma run_trimmed es :
  trim (generatedPrompt (run es init)) = generatedPrompt (run es init).
Proof.
  induction es as [|e es IH] using rev_ind; [done|].
  rewrite run_snoc. by apply step_trimmed.
Qed.

(** X14.  Nothing but [handleCopyPrompt] writes to the clipboard.  Whatever
    the sequence of events, if the clipboard holds a text, then that text is
    non-empty and trimmed, and it is what [generatedPrompt] was at one of
    the copy events of the sequence. *)
Theorem clipboard_holds_copied_prompt (es : list Event) (p : jsstring) :
  clipboard (run es init) = Some p →
  p ≠ [] ∧ trim p = p ∧
  ∃ es1 es2, es = es1 ++ CopyPrompt :: es2 ∧
             generatedPrompt (run es1 init) = p.
Proof.
  induction es as [|e es IH] using rev_ind; [done|].
  rewrite run_snoc.
  destruct (step_clipboard e (run es init)) as [->|(-> & Hne & ->)].
  - intros Hp. destruct (IH Hp) as (? & ? & es1 & es2 & -> & ?).
    split_and!; [done|done|]. exists es1, (es2 ++ [e]).
    by rewrite <- app_assoc.
  - intros [= <-]. split_and!; [done|apply run_trimmed|].
    by exists es, [].
Qed.

Lemma clipboard_holds_copied_prompt_witness :
  let es := [ImageChange (Some photo_png); GeneratePrompt;
             FileToBase64Settled 0 (Fulfilled (lit "iVBORw0KGgo="));
             GenerateContentSettled 0 (response_with (lit "A red barn"));
             CopyPrompt; Reset; CopyPrompt] in
  clipboard (run es init) = Some (lit "A red barn") ∧ lit "A red barn" ≠ [].
Proof.
  intros es.
  assert (clipboard (run es init) = Some (lit "A red barn")) as H
    by reflexivity.
  split; [exact H|].
  by destruct (clipboard_holds_copied_prompt es (lit "A red barn") H).
Defined.

(** ** No call without a request *)

Lemma encoding_spawn w f :
  (size (filter (λ ta : N * Awaiting, awaits_encoding ta.2 = true)
           (<[nextTask w := fileToBase64 f]> (tasks w)))
   ≤ S (size (encoding w)))%nat.
Proof.
  unfold encoding. rewrite map_filter_insert_True by done.
  rewrite map_size_insert. destruct (_ !! _); cbn; lia.
Qed.

Lemma encoding_moves_on w task f :
  tasks w !! task = Some (fileToBase64 f) →
  S (size (filter (λ ta : N * Awaiting, awaits_encoding ta.2 = true)
            (<[task := generateContent f]> (tasks w)))) = size (encoding w).
Proof.
  intros Ht. unfold encoding.
  rewrite map_filter_insert_False by done.
  rewrite map_filter_delete, map_size_delete.
  assert (filter (λ ta : N * Awaiting, awaits_encoding ta.2 = true) (tasks w)
          !! task = Some (fileToBase64 f)) as Hl
    by (by apply map_lookup_filter_Some).
  rewrite Hl. cbn.
  set (m := filter _ (tasks w)) in *.
  destruct (size m) eqn:Hsize; [|done].
  apply map_size_empty_inv in Hsize. by rewrite Hsize, lookup_empty in Hl.
Qed.

Lemma encoding_finish w task :
  (size (filter (λ ta : N * Awaiting, awaits_encoding ta.2 = true)
           (delete task (tasks w)))
   ≤ size (encoding w))%nat.
Proof.
  unfold encoding. rewrite map_filter_delete, map_size_delete.
  destruct (_ !! _); cbn; lia.
Qed.

Lemma step_calls_budget e w :
  (length (clientCalls (step e w)) + size (encoding (step e w))
   ≤ length (clientCalls w) + size (encoding w) + requests [e])%nat.
Proof.
  unfold encoding at 1.
  destruct (step_tasks_exact e w) as
    [(-> & ->)|[(f & -> & _ & -> & ->)|[(t & f & b & -> & Hl & -> & ->)
    |(t & a & _ & _ & -> & ->)]]].
  - fold (encoding w). lia.
  - pose proof (encoding_spawn w f). cbn. lia.
  - pose proof (encoding_moves_on w t f Hl). rewrite length_app. cbn. lia.
  - pose proof (encoding_finish w t). lia.
Qed.

Lemma requests_cons e es : requests (e :: es) = (requests [e] + requests es)%nat.
Proof. unfold requests. cbn. by destruct e. Qed.

Lemma run_calls_budget es w :
  (length (clientCalls (run es w)) + size (encoding (run es w))
   ≤ length (clientCalls w) + size (encoding w) + requests es)%nat.
Proof.
  revert w. induction es as [|e es IH]; intros w; [cbn; lia|].
  rewrite run_cons, requests_cons.
  pose proof (IH (step e w)). pose proof (step_calls_budget e w). lia.
Qed.

(** X15.  The controller never calls [generatePromptFromImage] on its own
    and never retries: over any sequence of events, the number of client
    calls made is at most the number of times [handleGeneratePrompt] was
    invoked, less the runs that still await the encoding of their image. *)
Theorem client_calls_bounded_by_requests (es : list Event) :
  (length (clientCalls (run es init)) ≤ requests es)%nat ∧
  (length (clientCalls (run es init)) + size (encoding (run es init))
   ≤ requests es)%nat.
Proof.
  pose proof (run_calls_budget es init) as H.
  replace (size (encoding init)) with 0%nat in H
    by (unfold encoding; cbn; by rewrite map_filter_empty, map_size_empty).
  cbn in H. lia.
Qed.

(** ** Reset twice *)

Lemma handleReset_fixed w :
  imageFile w = None → generatedPrompt w = [] → error w = [] →
  status w = Idle →
  (∀ url, imageUrl w = Some url → url ∉ objectURLs w) →
  handleReset w = w.
Proof.
  destruct w as [img prompt err st copy drag url dep urls next clip t tm tk nt cc].
  cbn. intros -> -> -> -> Hurl.
  unfold handleReset, andThen, revokeObjectURL, skip, setStatus, setError,
    setGeneratedPrompt, setImageFile, set_objectURLs. cbn.
  destruct url as [u|]; [|done]. f_equal.
  specialize (Hurl u eq_refl). set_solver.
Qed.

Lemma render_fixed w : imageUrl_dep w = ref <$> imageFile w → render w = w.
Proof. intros Hdep. unfold render. by rewrite decide_True. Qed.

Lemma render_dep w : imageUrl_dep (render w) = ref <$> imageFile (render w).
Proof.
  unfold render, createObjectURL. destruct (decide _) as [Heq|]; [done|].
  destruct (imageFile w) eqn:Himg; cbn; by rewrite Himg.
Qed.

(** X16.  A second [handleReset] right after a first changes nothing at all:
    not the state variables, not the registry of object URLs, not the timers
    or the suspended runs. *)
Theorem handleReset_idempotent (w : World) :
  step Reset (step Reset w) = step Reset w.
Proof.
  destruct (step_Reset w) as (Hi & Hp & He & Hs & _).
  set (w1 := step Reset w) in *.
  assert (∀ url, imageUrl w1 = Some url → url ∉ objectURLs w1) as Hrevoked.
  { subst w1. unfold step, andThen, render, createObjectURL. cbn.
    replace (imageFile (handleReset w)) with (@None File)
      by (unfold handleReset, andThen; by destruct (imageUrl w)).
    destruct (decide _); [|by cbn].
    unfold handleReset, andThen, revokeObjectURL, skip.
    destruct (imageUrl w) as [u|] eqn:Hu; cbn; rewrite Hu; [|done].
    intros url [= <-]. set_solver. }
  unfold step at 1, andThen. cbn.
  rewrite (handleReset_fixed w1 Hi Hp He Hs Hrevoked).
  apply render_fixed. apply render_dep.
Qed.

(** ** After a failed generation *)

(** X17.  A generation that fails leaves the image stored, and in the
    resulting error state the page renders neither the upload zone nor a
    button that calls [handleGeneratePrompt]: of the controls that change the
    session only "Remove Image" is left, although [handleGeneratePrompt]
    itself would start a new run. *)
Theorem failed_generation_leaves_only_reset
    (es : list Event) (task : N) (f g : File)
    (api : settled (option Client.GenerateContentResponse)) (err : value) :
  let w := run es init in
  tasks w !! task = Some (generateContent f) →
  imageFile w = Some g →
  Client.generatePromptFromImage api = Rejected err →
  let w' := step (GenerateContentSettled task api) w in
  status w' = Error ∧
  imageFile w' = Some g ∧
  uploadZone_rendered w' = false ∧
  generateButton_rendered w' = false ∧
  removeButton_rendered w' = true ∧
  status (step GeneratePrompt w') = Generating.
Proof.
  intros w Ht Himg Hrej w'.
  destruct (step_GenerateContent_settled task f api w Ht)
    as (_ & _ & _ & Hi & Hres).
  fold w' in Hi, Hres. rewrite Hrej in Hres. destruct Hres as (Hs & _).
  rewrite Himg in Hi.
  destruct (reachable_memo_ok w') as [_ Hmemo];
    [apply reachable_step; by exists es|].
  rewrite Hi in Hmemo. destruct Hmemo as (url & Hurl & _).
  clearbody w'.
  split_and!; [done|done|..].
  - unfold uploadZone_rendered. by rewrite Hi.
  - unfold generateButton_rendered. rewrite Hs. cbn. apply andb_false_r.
  - unfold removeButton_rendered. by rewrite Hurl.
  - by destruct (step_GeneratePrompt g w' Hi) as (_ & _ & _ & _ & -> & _).
Qed.

Lemma failed_generation_leaves_only_reset_witness :
  let es := [ImageChange (Some photo_png); GeneratePrompt;
             FileToBase64Settled 0 (Fulfilled (lit "iVBORw0KGgo="))] in
  let w' := step (GenerateContentSettled 0 (Fulfilled None)) (run es init) in
  tasks (run es init) !! 0 = Some (generateContent photo_png) ∧
  status w' = Error ∧ generateButton_rendered w' = false ∧
  removeButton_rendered w' = true.
Proof.
  intros es w'. split; [reflexivity|].
  destruct (failed_generation_leaves_only_reset es 0 photo_png photo_png
              (Fulfilled None)
              (ErrorObject (lit "Gemini API Error: The API response was empty or invalid.")))
    as (Hs & _ & _ & Hg & Hr & _);
    [reflexivity | reflexivity | reflexivity | exact (conj Hs (conj Hg Hr))].
Defined.

(** ** Requesting a generation twice *)

(** X18.  [handleGeneratePrompt] does not look at the status: invoked again
    while a generation is pending, it starts a second run for the same
    image, and each of the two runs calls the client once its encoding
    fulfils. *)
Theorem handleGeneratePrompt_reentrant
    (w : World) (f : File) (base64Image1 base64Image2 : jsstring) :
  imageFile w = Some f →
  let task := nextTask w in
  let w' := run [GeneratePrompt; GeneratePrompt;
                 FileToBase64Settled task (Fulfilled base64Image1);
                 FileToBase64Settled (task + 1) (Fulfilled base64Image2)] w in
  clientCalls w' =
    clientCalls w ++ [(task, Client.request base64Image1 (type f));
                      (task + 1, Client.request base64Image2 (type f))] ∧
  tasks w' !! task = Some (generateContent f) ∧
  tasks w' !! (task + 1) = Some (generateContent f) ∧
  status w' = Generating.
Proof.
  intros Himg task w'. subst w'. unfold run. cbn [foldl].
  destruct (step_GeneratePrompt f w Himg) as (Ht1 & Hn1 & Hc1 & Hi1 & _).
  set (w1 := step GeneratePrompt w) in *.
  destruct (step_GeneratePrompt f w1 Hi1) as (Ht2 & Hn2 & Hc2 & Hi2 & Hs2 & _).
  set (w2 := step GeneratePrompt w1) in *.
  assert (tasks w2 !! task = Some (fileToBase64 f)) as Hl2.
  { rewrite Ht2, Hn1, lookup_insert_ne by (subst task; lia).
    rewrite Ht1. apply lookup_insert_eq. }
  destruct (step_FileToBase64_fulfilled task f base64Image1 w2 Hl2)
    as (Ht3 & _ & Hc3 & _ & _ & Hs3 & _).
  set (w3 := step _ w2) in *.
  assert (tasks w3 !! (task + 1) = Some (fileToBase64 f)) as Hl3.
  { rewrite Ht3, lookup_insert_ne by lia.
    rewrite Ht2, Hn1. apply lookup_insert_eq. }
  destruct (step_FileToBase64_fulfilled (task + 1) f base64Image2 w3 Hl3)
    as (Ht4 & _ & Hc4 & _ & _ & Hs4 & _).
  rewrite Hc4, Hc3, Hc2, Hc1, Hs4, Hs3, Hs2, Ht4, <- app_assoc.
  split_and!; [done| |apply lookup_insert_eq|done].
  rewrite lookup_insert_ne by lia. rewrite Ht3. apply lookup_insert_eq.
Qed.

Lemma handleGeneratePrompt_reentrant_witness :
  let w := run [ImageChange (Some photo_png)] init in
  imageFile w = Some photo_png ∧
  length (clientCalls
    (run [GeneratePrompt; GeneratePrompt;
          FileToBase64Settled 0 (Fulfilled (lit "iVBORw0KGgo="));
          FileToBase64Settled 1 (Fulfilled (lit "iVBORw0KGgo="))] w)) = 2%nat.
Proof.
  intros w. split; [reflexivity|].
  destruct (handleGeneratePrompt_reentrant w photo_png
              (lit "iVBORw0KGgo=") (lit "iVBORw0KGgo=")) as [H _];
    [reflexivity|].
  cbn zeta in H. change (nextTask w) with 0 in H.
  change (0 + 1) with 1 in H. by rewrite H.
Defined.
